(** * Cookie-consent validation: a shallow embedding of the test suite's core

    The development follows the TypeScript sources
    - [tests/types/cookie.types.ts]   (the three interfaces),
    - [tests/config/cookie.config.ts] (the expectation registry),
    - [tests/utils/cookie.validator.ts] (polling, validation, decoding),
    - [tests/workflows/cookie-customization.workflow.ts] (the caller).

    JavaScript arrays are lists, the registry object is a finite map with
    string keys together with the properties every object literal inherits,
    and the browser page is a piece of state threaded through the polling
    loop. *)

From Stdlib Require Import String Ascii ZArith.
From stdpp Require Import gmap strings list.
From Equations Require Import Equations.

Open Scope string_scope.

(** ** JavaScript primitives used by the sources *)

Module Js.

(** [String.prototype.includes]: does [searchString] occur somewhere in
    [s]?  Written as the scan it is: try every start position.  The search
    strings of this program are ASCII, so searching bytes agrees with
    searching UTF-16 code units. *)
Fixpoint includes (s searchString : string) : bool :=
  String.prefix searchString s ||
  match s with
  | EmptyString => false
  | String _ rest => includes rest searchString
  end.

(** [Array.prototype.includes] on an array of strings: SameValueZero on
    strings is plain equality. *)
Definition array_includes (arr : list string) (x : string) : bool :=
  bool_decide (x ∈ arr).

(** [Array.prototype.push] of one element. *)
Definition push {A} (arr : list A) (x : A) : list A := arr ++ [x].

(** [Array.prototype.some]. *)
Definition some {A} (p : A → bool) (arr : list A) : bool := existsb p arr.

(** [Array.prototype.find]: the first element passing the test. *)
Fixpoint find {A} (p : A → bool) (arr : list A) : option A :=
  match arr with
  | [] => None
  | x :: rest => if p x then Some x else find p rest
  end.

(** [n || d] on numbers: [0] is falsy. *)
Definition or_number (n d : nat) : nat :=
  match n with O => d | S _ => n end.

(** [===] on strings. *)
Definition strict_eq (a b : string) : bool := String.eqb a b.

(** The property names every object literal inherits from
    [Object.prototype] (ECMAScript 20.1.3 and Annex B.2.2, as V8 has them).
    All of them hold a function, except [__proto__], which reads as
    [Object.prototype] itself. *)
Definition OBJECT_PROTOTYPE : list string :=
  [ "constructor"; "hasOwnProperty"; "isPrototypeOf";
    "propertyIsEnumerable"; "toLocaleString"; "toString"; "valueOf";
    "__proto__"; "__defineGetter__"; "__defineSetter__";
    "__lookupGetter__"; "__lookupSetter__" ].

(** The values a read [table[key]] of an object literal whose own
    properties all hold an [A] can give. *)
Inductive Value (A : Type) :=
| Undefined
| Null
| Own (a : A)
| Inherited (property : string).
Arguments Undefined {A}.
Arguments Null {A}.
Arguments Own {A} a.
Arguments Inherited {A} property.

(** [table[key]]: the own property if there is one, else what the
    prototype chain has under that name, else [undefined]. *)
Definition get {A} (table : gmap string A) (key : string) : Value A :=
  match table !! key with
  | Some a => Own a
  | None =>
      if bool_decide (key ∈ OBJECT_PROTOTYPE) then Inherited key
      else Undefined
  end.

(** ToBoolean: objects and functions are truthy. *)
Definition truthy {A} (v : Value A) : bool :=
  match v with
  | Undefined | Null => false
  | Own _ | Inherited _ => true
  end.

(** [v || null] *)
Definition or_null {A} (v : Value A) : Value A :=
  if truthy v then v else Null.

End Js.

(** ** tests/types/cookie.types.ts *)

(** A browser cookie, as far as this code reads it. *)
Record Cookie := mkCookie {
  name : string;
  domain : string;
  value : string
}.

(** [optionalCookies?: string[]]: the field may be absent. *)
Record ExpectedCookies := mkExpected {
  requiredCookies : list string;
  optionalCookies : option (list string)
}.

Record CookieValidationResult := mkResult {
  isValid : bool;
  missingRequired : list string;
  foundOptional : nat;
  totalOptional : nat
}.

Record ConsentCookieContent := mkContent {
  hasYesConsent : bool;
  hasYesAction : bool;
  hasYesNecessary : bool
}.

(** ** tests/config/cookie.config.ts: constants *)

Module CookieConfig.

Definition CONSENT_COOKIE_NAME : string := "cookieyes-consent".
Definition WWW_DOMAIN : string := ".www.thethinkingtraveller.com".
Definition BASE_DOMAIN : string := ".thethinkingtraveller.com".

Definition consentAtWww : string := CONSENT_COOKIE_NAME ++ "@" ++ WWW_DOMAIN.
Definition atBase (cookie : string) : string := cookie ++ "@" ++ BASE_DOMAIN.

(** The entry shared by the four desktop projects. *)
Definition desktop : ExpectedCookies :=
  {| requiredCookies := [ consentAtWww; atBase "_clck" ];
     optionalCookies :=
       Some [ atBase "tttdemorepath-_zldp"; atBase "tttdemorepath-_zldt";
              atBase "_uetsid"; atBase "_uetvid" ] |}.

(** The entry shared by the two mobile projects. *)
Definition mobile : ExpectedCookies :=
  {| requiredCookies := [ consentAtWww; atBase "_clck" ];
     optionalCookies :=
       Some [ atBase "tttdemorepath-_zldp"; atBase "tttdemorepath-_zldt" ] |}.

(** The own properties of the object literal [COOKIE_EXPECTATIONS]. *)
Definition COOKIE_EXPECTATIONS : gmap string ExpectedCookies :=
  list_to_map
    [ ("chromium", desktop);
      ("webkit", desktop);
      ("firefox", desktop);
      ("Microsoft Edge", desktop);
      ("Mobile Chrome", mobile);
      ("Mobile Safari", mobile) ].

(** [return this.COOKIE_EXPECTATIONS[projectName] || null;] *)
Definition getExpectedCookies (projectName : string)
    : Js.Value ExpectedCookies :=
  Js.or_null (Js.get COOKIE_EXPECTATIONS projectName).

End CookieConfig.

(** ** tests/utils/cookie.validator.ts: the pure part *)

Module CookieValidator.

(** The template literal [`${c.name}@${c.domain}`]. *)
Definition cookieKey (c : Cookie) : string :=
  name c ++ "@" ++ domain c.

(** One turn of the [for ... of expectations.requiredCookies] loop. *)
Definition requiredStep (cookieKeys : list string)
    (missing : list string) (requiredCookie : string) : list string :=
  if negb (Js.array_includes cookieKeys requiredCookie)
  then Js.push missing requiredCookie
  else missing.

(** One turn of the [for ... of expectations.optionalCookies] loop. *)
Definition optionalStep (cookieKeys : list string)
    (found : nat) (optionalCookie : string) : nat :=
  if Js.array_includes cookieKeys optionalCookie then S found else found.

Definition validateCookies (cookies : list Cookie)
    (expectations : ExpectedCookies) : CookieValidationResult :=
  let cookieKeys := cookieKey <$> cookies in
  let missing :=
    foldl (requiredStep cookieKeys) [] (requiredCookies expectations) in
  let found :=
    match optionalCookies expectations with
    | Some optional => foldl (optionalStep cookieKeys) 0 optional
    | None => 0
    end in
  {| isValid := Nat.eqb (length missing) 0;
     missingRequired := missing;
     foundOptional := found;
     totalOptional :=
       match optionalCookies expectations with
       | Some optional => Js.or_number (length optional) 0
       | None => 0
       end |}.

(** The test of [cookies.find] and of the first half of [cookies.some]. *)
Definition isConsentCookie (cookie : Cookie) : bool :=
  Js.strict_eq (name cookie) CookieConfig.CONSENT_COOKIE_NAME.

Definition validateConsentCookieContent (cookies : list Cookie)
    : ConsentCookieContent :=
  match Js.find isConsentCookie cookies with
  | None =>
      {| hasYesConsent := false;
         hasYesAction := false;
         hasYesNecessary := false |}
  | Some consentCookie =>
      {| hasYesConsent := Js.includes (value consentCookie) "consent:yes";
         hasYesAction := Js.includes (value consentCookie) "action:yes";
         hasYesNecessary := Js.includes (value consentCookie) "necessary:yes" |}
  end.

(** The test of [cookiesAfter.some] in the polling loop (and in the
    workflow): the consent cookie is there and has committed. *)
Definition consentCommitted (cookie : Cookie) : bool :=
  isConsentCookie cookie && Js.includes (value cookie) "consent:yes".

End CookieValidator.

(** ** The browser page and the test process

    The effectful code talks to three things: the cookie jar
    ([page.context().cookies()]), the clock ([page.waitForTimeout]) and the
    console.  A page carries a script of what the jar answers at each read,
    the number of reads so far, and the record of everything that happened,
    in order.  The jar always answers; a rejected promise is not modelled. *)

Module Playwright.

(** One constructor for each [console.log] call site, with the values it
    interpolates. *)
Inductive LogLine :=
| LogRetry (attempt : Z)
| LogNoRules (projectName : string)
| LogValidating (projectName : string)
| LogCookieCount (before after : nat)
| LogRequired (cookie : string) (isPresent : bool)
| LogOptional (cookie : string) (isPresent : bool)
| LogOptionalFound (found total : nat)
| LogMissingRequired (missing : list string)
| LogAvailable (cookieKeys : list string)
| LogConsentUpdated (updated : bool)
| LogConsentValue (yes : bool)
| LogActionValue (yes : bool)
| LogNecessaryValue (yes : bool)
| LogAllValidated.

Inductive Event :=
| Cookies (snapshot : list Cookie)
| WaitForTimeout (ms : Z)
| ConsoleLog (line : LogLine).

Record Page := mkPage {
  cookieSource : nat → list Cookie;
  fetched : nat;
  events : list Event
}.

(** A page nothing has happened to yet. *)
Definition open (source : nat → list Cookie) : Page :=
  {| cookieSource := source; fetched := 0; events := [] |}.

Definition record (e : Event) (page : Page) : Page :=
  {| cookieSource := cookieSource page;
     fetched := fetched page;
     events := events page ++ [e] |}.

(** Each [expect(...)] call site. *)
Inductive Expectation :=
| RequiredCookiePresent (cookie : string)
| ConsentCookieUpdated
| ContainsConsentYes
| ContainsActionYes
| ContainsNecessaryYes.

Inductive Failure :=
| ExpectFailed (what : Expectation)
| TypeError.

Inductive Completion (A : Type) :=
| Normal (a : A)
| Throw (f : Failure).
Arguments Normal {A} a.
Arguments Throw {A} f.

Definition Test (A : Type) : Type := Page → Completion A * Page.

#[export] Instance test_ret : MRet Test := λ A a page, (Normal a, page).

#[export] Instance test_bind : MBind Test := λ A B k m page,
  match m page with
  | (Normal a, page') => k a page'
  | (Throw f, page') => (Throw f, page')
  end.

Definition throw {A} (f : Failure) : Test A := λ page, (Throw f, page).

(** [await page.context().cookies()] *)
Definition cookies : Test (list Cookie) := λ page,
  let snapshot := cookieSource page (fetched page) in
  (Normal snapshot,
   {| cookieSource := cookieSource page;
      fetched := S (fetched page);
      events := events page ++ [Cookies snapshot] |}).

(** [await page.waitForTimeout(ms)] *)
Definition waitForTimeout (ms : Z) : Test unit := λ page,
  (Normal (), record (WaitForTimeout ms) page).

(** [console.log(...)] *)
Definition console_log (line : LogLine) : Test unit := λ page,
  (Normal (), record (ConsoleLog line) page).

(** [expect(actual, message).toBe(true)] *)
Definition expect_true (actual : bool) (what : Expectation) : Test unit :=
  if actual then mret () else throw (ExpectFailed what).

(** [for (const x of xs) { body x }] *)
Fixpoint forOf {A} (xs : list A) (body : A → Test unit) : Test unit :=
  match xs with
  | [] => mret ()
  | x :: rest => body x ;; forOf rest body
  end.

(** The snapshots in a record of events, the waits, and the console. *)
Definition snapshots (es : list Event) : list (list Cookie) :=
  omap (λ e, match e with Cookies s => Some s | _ => None end) es.

Definition waits (es : list Event) : list Z :=
  omap (λ e, match e with WaitForTimeout ms => Some ms | _ => None end) es.

Definition console (es : list Event) : list LogLine :=
  omap (λ e, match e with ConsoleLog l => Some l | _ => None end) es.

End Playwright.

Import Playwright.

(** ** tests/utils/cookie.validator.ts: [waitForConsentCookie] *)

Module Polling.

Import CookieValidator.

(** [maxRetries] and [retryCount] are integers: the counter starts at 0 and
    is only incremented, and the callers pass whole numbers. *)

(** The body of the [do { ... } while (...)] loop.  [None] is [break];
    [Some n] is falling out of the body with [retryCount = n]. *)
Definition iteration (maxRetries retryCount : Z)
    : Test (list Cookie * option Z) :=
  cookiesAfter ← cookies;
  let consentCookieSet := Js.some consentCommitted cookiesAfter in
  if consentCookieSet || (retryCount >=? maxRetries)%Z
  then mret (cookiesAfter, None)
  else
    console_log (LogRetry (retryCount + 1));;
    waitForTimeout 1000;;
    mret (cookiesAfter, Some (retryCount + 1)%Z).

(** The loop: run the body, then test [retryCount < maxRetries]. *)
Equations? doWhile (maxRetries retryCount : Z) (page : Page)
    : Completion (list Cookie) * Page
    by wf (Z.to_nat (maxRetries - retryCount)) lt :=
  doWhile maxRetries retryCount page
    with Logic.inspect (iteration maxRetries retryCount page) := {
    | exist _ (Throw f, page') _ => (Throw f, page')
    | exist _ (Normal (cookiesAfter, None), page') _ =>
        (Normal cookiesAfter, page')
    | exist _ (Normal (cookiesAfter, Some n), page') Hbody
        with Logic.inspect (n <? maxRetries)%Z := {
        | exist _ true Hlt => doWhile maxRetries n page'
        | exist _ false _ => (Normal cookiesAfter, page') } }.
Proof.
  apply Z.ltb_lt in Hlt.
  revert Hbody. unfold iteration, mbind, test_bind, cookies; simpl.
  destruct (_ || _); simpl; intros [= _ <- _]. lia.
Qed.

Definition waitForConsentCookie (maxRetries : Z) : Test (list Cookie) :=
  doWhile maxRetries 0.

(** [maxRetries: number = 3] *)
Definition DEFAULT_MAX_RETRIES : Z := 3.

End Polling.

(** ** tests/utils/cookie.validator.ts: logging *)

Module Logging.

Import CookieValidator.

(** Reading a field of the value [getExpectedCookies] handed over, and
    iterating it with [for ... of].  A table entry has the field; an
    inherited function (or [Object.prototype]) has not, the read gives
    [undefined], and iterating [undefined] throws a [TypeError]. *)
Definition iterateRequired (expectations : Js.Value ExpectedCookies)
    (body : string → Test unit) : Test unit :=
  match expectations with
  | Js.Own e => forOf (requiredCookies e) body
  | _ => throw TypeError
  end.

(** [expectations.optionalCookies], [None] when it reads [undefined]. *)
Definition readOptional (expectations : Js.Value ExpectedCookies)
    : option (list string) :=
  match expectations with
  | Js.Own e => optionalCookies e
  | _ => None
  end.

Definition logCookieValidation (projectName : string)
    (cookiesBefore cookiesAfter : list Cookie)
    (expectations : Js.Value ExpectedCookies) : Test unit :=
  console_log (LogValidating projectName);;
  console_log (LogCookieCount (length cookiesBefore) (length cookiesAfter));;
  let cookieKeys := cookieKey <$> cookiesAfter in
  iterateRequired expectations (λ requiredCookie,
    let isPresent := Js.array_includes cookieKeys requiredCookie in
    console_log (LogRequired requiredCookie isPresent));;
  match readOptional expectations with
  | Some optional =>
      forOf optional (λ optionalCookie,
        let isPresent := Js.array_includes cookieKeys optionalCookie in
        console_log (LogOptional optionalCookie isPresent));;
      console_log
        (LogOptionalFound
           (foldl (optionalStep cookieKeys) 0 optional)
           (length optional))
  | None => mret ()
  end.

Definition logConsentCookieValidation (content : ConsentCookieContent)
    : Test unit :=
  console_log (LogConsentValue (hasYesConsent content));;
  console_log (LogActionValue (hasYesAction content));;
  console_log (LogNecessaryValue (hasYesNecessary content)).

End Logging.

(** ** tests/workflows/cookie-customization.workflow.ts *)

Module CookieCustomizationTest.

Import CookieValidator Logging.

Definition assertRequiredCookies (validationResult : CookieValidationResult)
    (cookiesAfter : list Cookie) : Test unit :=
  if negb (isValid validationResult) then
    console_log (LogMissingRequired (missingRequired validationResult));;
    console_log (LogAvailable (cookieKey <$> cookiesAfter));;
    forOf (missingRequired validationResult) (λ missingCookie,
      expect_true false (RequiredCookiePresent missingCookie))
  else mret ().

Definition validateConsentCookie (cookiesAfter : list Cookie) : Test unit :=
  let consentCookieUpdated := Js.some consentCommitted cookiesAfter in
  console_log (LogConsentUpdated consentCookieUpdated);;
  expect_true consentCookieUpdated ConsentCookieUpdated;;
  let consentContent := validateConsentCookieContent cookiesAfter in
  logConsentCookieValidation consentContent;;
  expect_true (hasYesConsent consentContent) ContainsConsentYes;;
  expect_true (hasYesAction consentContent) ContainsActionYes;;
  expect_true (hasYesNecessary consentContent) ContainsNecessaryYes.

(** The private method [validateCookies(cookiesBefore, cookiesAfter)] of
    the workflow; [projectName] is the field [this.projectName].  Past
    the guard the value is used as an [ExpectedCookies]; the validator is
    only reached with a table entry, since the logging before it reads
    the same field first. *)
Definition validateCookies (projectName : string)
    (cookiesBefore cookiesAfter : list Cookie) : Test unit :=
  let projectExpectations := CookieConfig.getExpectedCookies projectName in
  if negb (Js.truthy projectExpectations) then
    console_log (LogNoRules projectName)
  else
    logCookieValidation projectName cookiesBefore cookiesAfter
      projectExpectations;;
    match projectExpectations with
    | Js.Own expectations =>
        let validationResult :=
          CookieValidator.validateCookies cookiesAfter expectations in
        assertRequiredCookies validationResult cookiesAfter;;
        validateConsentCookie cookiesAfter;;
        console_log LogAllValidated
    | _ => throw TypeError
    end.

End CookieCustomizationTest.

(** ** Vocabulary of the statements *)

Module Spec.

(** [t] occurs in [s] as a contiguous piece. *)
Definition contains (s t : string) : Prop :=
  ∃ pre post, s = pre ++ t ++ post.

(** The [name@domain] key of some observed cookie. *)
Definition observed (cookies : list Cookie) (key : string) : Prop :=
  ∃ c, c ∈ cookies ∧ key = name c ++ "@" ++ domain c.

(** The snapshot holds a consent cookie whose value contains
    [consent:yes]. *)
Definition committed (snapshot : list Cookie) : Prop :=
  ∃ c, c ∈ snapshot ∧ name c = "cookieyes-consent" ∧
       contains (value c) "consent:yes".

(** What the jar answers at the [k]-th read from now (counting from 0). *)
Definition answer (page : Page) (k : nat) : list Cookie :=
  cookieSource page (fetched page + k).

(** The jar never shows a committed consent cookie, from now on. *)
Definition neverCommitted (page : Page) : Prop :=
  ∀ k, ¬ committed (answer page k).

(** The page after [n] more reads that left the events [es]. *)
Definition advance (page : Page) (n : nat) (es : list Event) : Page :=
  {| cookieSource := cookieSource page;
     fetched := fetched page + n;
     events := events page ++ es |}.

(** What the [k]-th round of the polling loop leaves behind when it neither
    finds the cookie committed nor finds the budget used up: the read, the
    retry line, the wait.  [retryCount] is the counter at round 0. *)
Definition round (retryCount : Z) (page : Page) (k : nat) : list Event :=
  [ Cookies (answer page k);
    ConsoleLog (LogRetry (retryCount + Z.of_nat k + 1));
    WaitForTimeout 1000 ].

(** [n] such rounds in a row. *)
Definition rounds (retryCount : Z) (page : Page) (n : nat) : list Event :=
  mjoin (round retryCount page <$> seq 0 n).

(** The environment identifier is a key of the expectation table. *)
Definition registered (projectName : string) : Prop :=
  is_Some (CookieConfig.COOKIE_EXPECTATIONS !! projectName).

End Spec.

(** ** Sample cookies, jars and pages *)

Module Fixtures.

Definition clck : Cookie :=
  mkCookie "_clck" ".thethinkingtraveller.com" "1a2b3c".

Definition consentNo : Cookie :=
  mkCookie "cookieyes-consent" ".www.thethinkingtraveller.com"
    "consentid:abc,consent:no,action:no".

Definition consentYes : Cookie :=
  mkCookie "cookieyes-consent" ".www.thethinkingtraveller.com"
    "consent:yes;action:yes;necessary:yes;functional:no;analytics:no;performance:no;advertisement:no;other:no".

(** A jar in which the consent cookie never commits. *)
Definition pending : Page := open (λ _, [clck; consentNo]).

(** A jar in which it commits at the third read. *)
Definition settling : Page :=
  open (λ k, if (k <? 2)%nat then [clck; consentNo] else [clck; consentYes]).

End Fixtures.

(** ** Vocabulary for the behaviour of whole calls *)

Module Trace.

(** The page after the given lines went to the console and nothing else
    happened. *)
Definition logged (page : Page) (lines : list LogLine) : Page :=
  {| cookieSource := cookieSource page;
     fetched := fetched page;
     events := events page ++ (ConsoleLog <$> lines) |}.

(** The most reads a call with this budget can make. *)
Definition budget (maxRetries : Z) : nat := Z.to_nat (Z.max 1 maxRetries).

(** The cookies the decoder could pick from. *)
Definition consentCookies (cookies : list Cookie) : list Cookie :=
  filter (λ x, name x = "cookieyes-consent") cookies.

(** No [@] in the string. *)
Definition noAt (s : string) : Prop := ¬ Spec.contains s "@".

(** The required entries a run of console lines reports as missing. *)
Definition missingRows (lines : list LogLine) : list string :=
  omap (λ l, match l with LogRequired r false => Some r | _ => None end) lines.

(** The lines [logCookieValidation] writes for a table entry. *)
Definition validationLines (projectName : string)
    (cookiesBefore cookiesAfter : list Cookie) (e : ExpectedCookies)
    : list LogLine :=
  let keys := CookieValidator.cookieKey <$> cookiesAfter in
  ([ LogValidating projectName;
     LogCookieCount (length cookiesBefore) (length cookiesAfter) ]
   ++ ((λ r, LogRequired r (bool_decide (r ∈ keys))) <$> requiredCookies e)
   ++ match optionalCookies e with
      | Some optional =>
          ((λ o, LogOptional o (bool_decide (o ∈ keys))) <$> optional)
          ++ [ LogOptionalFound
                 (length (filter (λ o, o ∈ keys) optional))
                 (length optional) ]
      | None => []
      end)%list.

End Trace.

(** ** analyze-cookies.js: the search for consistent cookies

    The part of [analyzeCookieData] that, for one project, counts the
    [name@domain] keys over the recorded runs and keeps the keys whose count
    equals the number of runs.  Reading the export files and the arithmetic
    on the cookie counts are not modelled. *)

Module AnalyzeCookies.

(** [{ name: c.name, domain: c.domain }], an element of [cookiesAfter]. *)
Record CookieRef := mkRef {
  refName : string;
  refDomain : string
}.

(** An element of [data.runs], as far as the search reads it. *)
Record Run := mkRun {
  cookiesAfter : list CookieRef
}.

(** The template literal [`${cookie.name}@${cookie.domain}`]. *)
Definition key (cookie : CookieRef) : string :=
  refName cookie ++ "@" ++ refDomain cookie.

(** [cookieCountsAfter[key]], [None] for [undefined].  The object is kept
    as its own properties in insertion order, the order [Object.entries]
    lists them in: every key holds an [@], so none is an array index and
    none names an inherited property. *)
Fixpoint read (counts : list (string * nat)) (k : string) : option nat :=
  match counts with
  | [] => None
  | (k', n) :: rest => if String.eqb k' k then Some n else read rest k
  end.

(** [cookieCountsAfter[key] = value]: a property that is there keeps its
    place, a new one goes last. *)
Fixpoint write (counts : list (string * nat)) (k : string) (value : nat)
    : list (string * nat) :=
  match counts with
  | [] => [(k, value)]
  | (k', n) :: rest =>
      if String.eqb k' k then (k', value) :: rest
      else (k', n) :: write rest k value
  end.

(** [cookieCountsAfter[key] = (cookieCountsAfter[key] || 0) + 1] *)
Definition bump (counts : list (string * nat)) (k : string)
    : list (string * nat) :=
  let old :=
    match read counts k with
    | Some n => Js.or_number n 0
    | None => 0
    end in
  write counts k (old + 1).

(** The two nested [forEach] loops. *)
Definition countCookies (runs : list Run) : list (string * nat) :=
  foldl (λ counts run,
           foldl (λ counts cookie, bump counts (key cookie))
             counts (cookiesAfter run))
    [] runs.

(** [Object.entries(cookieCountsAfter)
       .filter(([key, count]) => count === data.runs.length)
       .map(([key]) => key)] *)
Definition consistentCookiesAfter (runs : list Run) : list string :=
  fst <$> filter (λ entry, entry.2 = length runs) (countCookies runs).

(** How often the key is listed, over all runs together. *)
Definition occurrences (k : string) (runs : list Run) : nat :=
  length (filter (λ cookie, key cookie = k) (mjoin (cookiesAfter <$> runs))).

End AnalyzeCookies.

(** ** Facts about the JavaScript primitives *)

Section JsFacts.

Lemma prefix_iff (p s : string) :
  String.prefix p s = true ↔ ∃ post, s = p ++ post.
Proof.
  revert s; induction p as [|a p IH]; intros s.
  - split; [intros _; by exists s | by destruct s].
  - destruct s as [|b s]; simpl.
    + split; [done | intros [post H]; discriminate].
    + destruct (ascii_dec a b) as [->|Hne].
      * rewrite IH. split; intros [post H]; exists post.
        -- by rewrite H.
        -- by injection H.
      * split; [done | intros [post H]; injection H; congruence].
Qed.

Lemma includes_contains (s t : string) :
  Js.includes s t = true ↔ Spec.contains s t.
Proof.
  unfold Spec.contains.
  induction s as [|a s IH]; cbn [Js.includes].
  - rewrite orb_false_r, prefix_iff. split.
    + intros [post H]. by exists "", post.
    + intros ([|b pre] & post & H); [by exists post | discriminate].
  - rewrite orb_true_iff, prefix_iff, IH. split.
    + intros [[post H] | (pre & post & H)].
      * by exists "", post.
      * exists (String a pre), post. simpl. by rewrite H.
    + intros ([|b pre] & post & H).
      * left. by exists post.
      * right. exists pre, post. simpl in H. by injection H.
Qed.

Lemma includes_false (s t : string) :
  Js.includes s t = false ↔ ¬ Spec.contains s t.
Proof.
  rewrite <- includes_contains. by destruct (Js.includes s t).
Qed.

Lemma array_includes_iff (arr : list string) (x : string) :
  Js.array_includes arr x = true ↔ x ∈ arr.
Proof. unfold Js.array_includes. by rewrite bool_decide_eq_true. Qed.

Lemma find_app_first {A} (p : A → bool) (pre post : list A) (x : A) :
  Forall (λ y, p y = false) pre → p x = true →
  Js.find p (pre ++ x :: post) = Some x.
Proof.
  induction 1 as [|y pre Hy _ IH]; simpl; intros Hx.
  - by rewrite Hx.
  - rewrite Hy. by apply IH.
Qed.

Lemma find_none {A} (p : A → bool) (arr : list A) :
  Forall (λ y, p y = false) arr → Js.find p arr = None.
Proof. induction 1 as [|y arr Hy _ IH]; simpl; [done | by rewrite Hy]. Qed.

Lemma find_filter {A} (p : A → bool) (arr : list A) :
  Js.find p (filter (λ y, p y = true) arr) = Js.find p arr.
Proof.
  induction arr as [|y arr IH]; [done |].
  rewrite filter_cons. case_decide as Hy; simpl.
  - by rewrite Hy.
  - apply not_true_is_false in Hy. by rewrite Hy.
Qed.

Lemma filter_nil_iff {A} (P : A → Prop) `{∀ x, Decision (P x)} (l : list A) :
  filter P l = [] ↔ Forall (λ x, ¬ P x) l.
Proof.
  induction l as [|x l IH]; [by rewrite filter_nil |].
  rewrite filter_cons, Forall_cons. case_decide; [|tauto].
  split; [done | tauto].
Qed.

Lemma some_true_iff {A} (p : A → bool) (arr : list A) :
  Js.some p arr = true ↔ ∃ x, x ∈ arr ∧ p x = true.
Proof.
  unfold Js.some. rewrite existsb_exists.
  by setoid_rewrite list_elem_of_In.
Qed.

End JsFacts.

(** ** The cookie set validator *)

Section ValidatorFacts.

Import CookieValidator.

Lemma observed_iff (cookies : list Cookie) (key : string) :
  Spec.observed cookies key ↔ key ∈ cookieKey <$> cookies.
Proof.
  unfold Spec.observed. rewrite list_elem_of_fmap.
  split; intros (c & H1 & H2); exists c; unfold cookieKey in *; tauto.
Qed.

#[export] Instance observed_dec (cookies : list Cookie) (key : string) :
  Decision (Spec.observed cookies key).
Proof.
  refine (cast_if (decide (key ∈ cookieKey <$> cookies)));
    by rewrite observed_iff.
Defined.

(** The required loop pushes, in turn, exactly the entries that are not
    among the keys. *)
Lemma foldl_requiredStep (keys missing required : list string) :
  foldl (requiredStep keys) missing required
  = (missing ++ filter (λ r, r ∉ keys) required)%list.
Proof.
  revert missing; induction required as [|r required IH]; intros missing.
  - by rewrite filter_nil, app_nil_r.
  - cbn [foldl]. rewrite IH, filter_cons. unfold requiredStep, Js.push.
    destruct (Js.array_includes keys r) eqn:Hr; simpl.
    + apply array_includes_iff in Hr. by rewrite decide_False by tauto.
    + assert (r ∉ keys) as Hn
        by (rewrite <- array_includes_iff; congruence).
      by rewrite decide_True, <- app_assoc by done.
Qed.

(** The optional loop counts the entries that are among the keys. *)
Lemma foldl_optionalStep (keys optional : list string) (found : nat) :
  foldl (optionalStep keys) found optional
  = found + length (filter (λ o, o ∈ keys) optional).
Proof.
  revert found; induction optional as [|o optional IH]; intros found.
  - simpl. lia.
  - cbn [foldl]. rewrite IH, filter_cons. unfold optionalStep.
    destruct (Js.array_includes keys o) eqn:Ho.
    + apply array_includes_iff in Ho. rewrite decide_True by done.
      simpl. lia.
    + assert (o ∉ keys) as Hn
        by (rewrite <- array_includes_iff; congruence).
      by rewrite decide_False.
Qed.

Lemma missingRequired_filter (cookies : list Cookie) (e : ExpectedCookies) :
  missingRequired (validateCookies cookies e)
  = filter (λ r, r ∉ cookieKey <$> cookies) (requiredCookies e).
Proof. unfold validateCookies; simpl. by rewrite foldl_requiredStep. Qed.

Lemma isValid_missing_nil (cookies : list Cookie) (e : ExpectedCookies) :
  isValid (validateCookies cookies e) = true
  ↔ missingRequired (validateCookies cookies e) = [].
Proof.
  unfold validateCookies; simpl. rewrite Nat.eqb_eq. apply length_zero_iff_nil.
Qed.

(** The result depends on the observed cookies through the set of their
    keys only. *)
Lemma validateCookies_same_keys (cookies cookies' : list Cookie)
    (e : ExpectedCookies) :
  (∀ k, k ∈ cookieKey <$> cookies ↔ k ∈ cookieKey <$> cookies') →
  validateCookies cookies' e = validateCookies cookies e.
Proof.
  intros Hkeys. unfold validateCookies.
  rewrite !foldl_requiredStep.
  assert (∀ l : list string,
    filter (λ r, r ∉ cookieKey <$> cookies') l
    = filter (λ r, r ∉ cookieKey <$> cookies) l) as ->.
  { intros l. apply list_filter_iff. intros r. by rewrite Hkeys. }
  destruct (optionalCookies e) as [optional|]; [|done].
  rewrite !foldl_optionalStep.
  assert (filter (λ o, o ∈ cookieKey <$> cookies') optional
          = filter (λ o, o ∈ cookieKey <$> cookies) optional) as ->; [|done].
  apply list_filter_iff. intros o. by rewrite Hkeys.
Qed.

(** C1.  [validateCookies] answers [isValid = true] exactly when every
    entry of [requiredCookies] is, as a string, the [name@domain] key of
    an observed cookie; and every required entry that is the key of no
    observed cookie is a member of [missingRequired]. *)
Theorem validateCookies_isValid_iff (observed : list Cookie)
    (expectations : ExpectedCookies) :
  (isValid (validateCookies observed expectations) = true
   ↔ ∀ r, r ∈ requiredCookies expectations → Spec.observed observed r)
  ∧ (∀ r, r ∈ requiredCookies expectations →
          ¬ Spec.observed observed r →
          r ∈ missingRequired (validateCookies observed expectations)).
Proof.
  split.
  - rewrite isValid_missing_nil, missingRequired_filter.
    rewrite filter_nil_iff, Forall_forall.
    split; intros H r Hr.
    + apply observed_iff. specialize (H r Hr). simpl in H.
      by destruct (decide (r ∈ cookieKey <$> observed)).
    + simpl. intros Hn. apply Hn, observed_iff, H, Hr.
  - intros r Hr Hn. rewrite missingRequired_filter.
    apply list_elem_of_filter. split; [|done].
    by rewrite <- observed_iff.
Qed.

(** C6.  Permuting the observed cookies does not change the result;
    [missingRequired] is [requiredCookies] with the found entries struck
    out, so it keeps the declared order; and more generally two observed
    lists with the same keys, whatever their order and repetitions, give
    the same result. *)
Theorem validateCookies_order_independent (observed : list Cookie)
    (expectations : ExpectedCookies) :
  (∀ observed', observed ≡ₚ observed' →
     validateCookies observed' expectations
     = validateCookies observed expectations)
  ∧ missingRequired (validateCookies observed expectations)
    = filter (λ r, ¬ Spec.observed observed r) (requiredCookies expectations)
  ∧ (∀ observed', (∀ k, Spec.observed observed k ↔ Spec.observed observed' k) →
     validateCookies observed' expectations
     = validateCookies observed expectations).
Proof.
  split; [|split].
  - intros observed' Hperm. apply validateCookies_same_keys.
    intros k. by rewrite Hperm.
  - rewrite missingRequired_filter. apply list_filter_iff.
    intros r. by rewrite observed_iff.
  - intros observed' H. apply validateCookies_same_keys.
    intros k. rewrite <- !observed_iff. apply H.
Qed.

(** C8.  [totalOptional] is the length of [optionalCookies], taken as
    empty when the field is absent, whatever was observed; and
    [foundOptional] counts the optional entries that are the key of an
    observed cookie. *)
Theorem validateCookies_optional_counts (observed : list Cookie)
    (expectations : ExpectedCookies) :
  totalOptional (validateCookies observed expectations)
  = length (default [] (optionalCookies expectations))
  ∧ foundOptional (validateCookies observed expectations)
    = length (filter (λ o, Spec.observed observed o)
                (default [] (optionalCookies expectations))).
Proof.
  unfold validateCookies; simpl.
  destruct (optionalCookies expectations) as [optional|]; simpl.
  - split; [by destruct optional |].
    rewrite foldl_optionalStep. simpl. f_equal.
    apply list_filter_iff. intros o. by rewrite observed_iff.
  - done.
Qed.

End ValidatorFacts.

(** ** The consent value decoder *)

Section DecoderFacts.

Import CookieValidator.

Lemma isConsentCookie_iff (c : Cookie) :
  isConsentCookie c = true ↔ name c = "cookieyes-consent".
Proof. unfold isConsentCookie, Js.strict_eq. apply String.eqb_eq. Qed.

Lemma isConsentCookie_false (c : Cookie) :
  isConsentCookie c = false ↔ name c ≠ "cookieyes-consent".
Proof. unfold isConsentCookie, Js.strict_eq. apply String.eqb_neq. Qed.

(** What the decoder makes of the cookie it settled on. *)
Lemma decode_first (pre post : list Cookie) (c : Cookie) :
  Forall (λ x, name x ≠ "cookieyes-consent") pre →
  name c = "cookieyes-consent" →
  validateConsentCookieContent (pre ++ c :: post)
  = {| hasYesConsent := Js.includes (value c) "consent:yes";
       hasYesAction := Js.includes (value c) "action:yes";
       hasYesNecessary := Js.includes (value c) "necessary:yes" |}.
Proof.
  intros Hpre Hc. unfold validateConsentCookieContent.
  rewrite find_app_first; [done | | by apply isConsentCookie_iff].
  eapply Forall_impl; [exact Hpre |]. intros x. apply isConsentCookie_false.
Qed.

Lemma decode_absent (cookies : list Cookie) :
  Forall (λ x, name x ≠ "cookieyes-consent") cookies →
  validateConsentCookieContent cookies = mkContent false false false.
Proof.
  intros H. unfold validateConsentCookieContent.
  rewrite find_none; [done |].
  eapply Forall_impl; [exact H |]. intros x. apply isConsentCookie_false.
Qed.

(** The eight-flag reading of C2 fails: the decoder's answer does not
    tell whether the value contains [analytics:yes], so no [analytics]
    flag can be read off it. *)
Lemma decoder_has_no_analytics_flag :
  ¬ ∃ analytics : ConsentCookieContent → bool,
      ∀ rawValue : string,
        analytics (validateConsentCookieContent
                     [mkCookie "cookieyes-consent" "" rawValue])
        = Js.includes rawValue "analytics:yes".
Proof.
  intros [analytics H].
  pose proof (H "analytics:yes") as Hyes.
  pose proof (H "analytics:no") as Hno.
  vm_compute in Hyes, Hno. congruence.
Qed.

(** C2, as the code has it.  The decoder answers with the three flags
    [hasYesConsent], [hasYesAction] and [hasYesNecessary]; each is true
    exactly when the value of the consent cookie it reads contains
    [consent:yes], [action:yes], [necessary:yes]; a value containing none
    of the three, the empty value among them, decodes to all false. *)
Theorem validateConsentCookieContent_three_flags
    (pre post : list Cookie) (c : Cookie) :
  Forall (λ x, name x ≠ "cookieyes-consent") pre →
  name c = "cookieyes-consent" →
  let content := validateConsentCookieContent (pre ++ c :: post) in
  (hasYesConsent content = true ↔ Spec.contains (value c) "consent:yes")
  ∧ (hasYesAction content = true ↔ Spec.contains (value c) "action:yes")
  ∧ (hasYesNecessary content = true ↔ Spec.contains (value c) "necessary:yes")
  ∧ (¬ Spec.contains (value c) "consent:yes" →
     ¬ Spec.contains (value c) "action:yes" →
     ¬ Spec.contains (value c) "necessary:yes" →
     content = mkContent false false false)
  ∧ (value c = "" → content = mkContent false false false).
Proof.
  intros Hpre Hc content. subst content. rewrite decode_first by done. simpl.
  rewrite !includes_contains. repeat split; try tauto.
  - intros H1 H2 H3. apply includes_false in H1, H2, H3. by rewrite H1, H2, H3.
  - by intros ->.
Qed.

(** C10.  With several cookies named [cookieyes-consent] the flags come
    from the value of the first one in list order: the cookies after it,
    so-named or not, and the otherwise-named cookies before it can be
    dropped without changing the answer; in general only the so-named
    cookies matter, and with none the answer is that of the empty list. *)
Theorem validateConsentCookieContent_first_only (cookies : list Cookie) :
  (∀ pre c post,
     cookies = (pre ++ c :: post)%list →
     Forall (λ x, name x ≠ "cookieyes-consent") pre →
     name c = "cookieyes-consent" →
     validateConsentCookieContent cookies = validateConsentCookieContent [c]
     ∧ hasYesConsent (validateConsentCookieContent cookies)
       = Js.includes (value c) "consent:yes"
     ∧ hasYesAction (validateConsentCookieContent cookies)
       = Js.includes (value c) "action:yes"
     ∧ hasYesNecessary (validateConsentCookieContent cookies)
       = Js.includes (value c) "necessary:yes")
  ∧ validateConsentCookieContent cookies
    = validateConsentCookieContent
        (filter (λ x, name x = "cookieyes-consent") cookies).
Proof.
  split.
  - intros pre c post -> Hpre Hc.
    rewrite decode_first by done.
    split; [symmetry; by apply (decode_first [] [] c) | done].
  - unfold validateConsentCookieContent.
    rewrite <- (find_filter isConsentCookie cookies).
    rewrite (list_filter_iff (λ y, isConsentCookie y = true)
               (λ x, name x = "cookieyes-consent")); [done |].
    intros x. apply isConsentCookie_iff.
Qed.

End DecoderFacts.

(** ** The consent polling engine *)

Section PollingFacts.

Import CookieValidator Polling.

Lemma committed_iff (snapshot : list Cookie) :
  Js.some consentCommitted snapshot = true ↔ Spec.committed snapshot.
Proof.
  rewrite some_true_iff. unfold Spec.committed, consentCommitted.
  split; intros (c & Hc & H); exists c; split; try done.
  - apply andb_true_iff in H as [H1 H2].
    by rewrite <- isConsentCookie_iff, <- includes_contains.
  - apply andb_true_iff.
    by rewrite isConsentCookie_iff, includes_contains.
Qed.

Lemma answer_0 (page : Page) :
  Spec.answer page 0 = cookieSource page (fetched page).
Proof. unfold Spec.answer. by rewrite Nat.add_0_r. Qed.

Lemma advance_advance (page : Page) (a b : nat) (es es' : list Event) :
  Spec.advance (Spec.advance page a es) b es'
  = Spec.advance page (a + b) (es ++ es').
Proof. unfold Spec.advance; simpl. f_equal; [lia | by rewrite app_assoc]. Qed.

Lemma answer_advance (page : Page) (a k : nat) (es : list Event) :
  Spec.answer (Spec.advance page a es) k = Spec.answer page (a + k).
Proof. unfold Spec.answer, Spec.advance; simpl. f_equal. lia. Qed.

(** *** One turn of the body *)

Lemma iteration_break (maxRetries retryCount : Z) (page : Page) :
  Spec.committed (Spec.answer page 0) ∨ (maxRetries ≤ retryCount)%Z →
  iteration maxRetries retryCount page
  = (Normal (Spec.answer page 0, None),
     Spec.advance page 1 [Cookies (Spec.answer page 0)]).
Proof.
  intros H. unfold iteration, mbind, test_bind, cookies. cbn [fst snd].
  rewrite <- answer_0.
  assert (Js.some consentCommitted (Spec.answer page 0)
          || (retryCount >=? maxRetries)%Z = true) as ->.
  { apply orb_true_iff. rewrite committed_iff, Z.geb_le. tauto. }
  unfold mret, test_ret, Spec.advance. by rewrite Nat.add_1_r.
Qed.

Lemma iteration_retry (maxRetries retryCount : Z) (page : Page) :
  ¬ Spec.committed (Spec.answer page 0) → (retryCount < maxRetries)%Z →
  iteration maxRetries retryCount page
  = (Normal (Spec.answer page 0, Some (retryCount + 1)%Z),
     Spec.advance page 1 (Spec.round retryCount page 0)).
Proof.
  intros Hn Hlt. unfold iteration, mbind, test_bind, cookies. cbn [fst snd].
  rewrite <- answer_0.
  assert (Js.some consentCommitted (Spec.answer page 0)
          || (retryCount >=? maxRetries)%Z = false) as ->.
  { apply orb_false_iff. split.
    - apply not_true_is_false. by rewrite committed_iff.
    - rewrite Z.geb_leb. by apply Z.leb_gt. }
  unfold console_log, waitForTimeout, record, mret, test_ret; simpl.
  unfold Spec.advance, Spec.round. rewrite Nat.add_1_r, Z.add_0_r.
  by rewrite <- !app_assoc.
Qed.

(** *** One turn of the loop *)

Lemma doWhile_break (maxRetries retryCount : Z) (page page' : Page)
    (cookiesAfter : list Cookie) :
  iteration maxRetries retryCount page = (Normal (cookiesAfter, None), page') →
  doWhile maxRetries retryCount page = (Normal cookiesAfter, page').
Proof.
  intros Hbody. rewrite doWhile_equation_1. unfold doWhile_unfold_clause_1.
  destruct (Logic.inspect _) as [[[[c [n|]]|f] p] Hx]; congruence.
Qed.

Lemma doWhile_fallthrough (maxRetries retryCount n : Z) (page page' : Page)
    (cookiesAfter : list Cookie) :
  iteration maxRetries retryCount page
  = (Normal (cookiesAfter, Some n), page') →
  doWhile maxRetries retryCount page
  = if (n <? maxRetries)%Z then doWhile maxRetries n page'
    else (Normal cookiesAfter, page').
Proof.
  intros Hbody. rewrite doWhile_equation_1. unfold doWhile_unfold_clause_1.
  destruct (Logic.inspect _) as [[[[c [k|]]|f] p] Hx]; try congruence.
  assert (c = cookiesAfter ∧ k = n ∧ p = page') as (-> & -> & ->)
    by (split_and!; congruence).
  unfold doWhile_unfold_clause_1_clause_3.
  destruct (Logic.inspect _) as [b Hb]. rewrite Hb. by destruct b.
Qed.

(** *** Rounds *)

Lemma rounds_S (retryCount : Z) (page : Page) (n : nat) (es : list Event) :
  Spec.rounds retryCount page (S n)
  = (Spec.round retryCount page 0
     ++ Spec.rounds (retryCount + 1) (Spec.advance page 1 es) n)%list.
Proof.
  unfold Spec.rounds. cbn [seq fmap list_fmap mjoin list_join].
  f_equal. f_equal. rewrite <- fmap_S_seq, <- list_fmap_compose.
  apply list_fmap_ext. intros _ k _. unfold Spec.round.
  cbn [compose]. rewrite answer_advance.
  replace (retryCount + 1 + Z.of_nat k + 1)%Z
    with (retryCount + Z.of_nat (S k) + 1)%Z by lia.
  done.
Qed.

Lemma rounds_snoc (retryCount : Z) (page : Page) (n : nat) :
  Spec.rounds retryCount page (S n)
  = (Spec.rounds retryCount page n ++ Spec.round retryCount page n)%list.
Proof.
  unfold Spec.rounds. by rewrite seq_S, fmap_app, join_app.
Qed.

Lemma waits_rounds (retryCount : Z) (page : Page) (n : nat) :
  waits (Spec.rounds retryCount page n) = replicate n 1000%Z.
Proof.
  induction n as [|n IH]; [done |].
  rewrite rounds_snoc. unfold waits in *. rewrite omap_app, IH. simpl.
  by rewrite replicate_cons_app.
Qed.

Lemma snapshots_rounds (retryCount : Z) (page : Page) (n : nat) :
  snapshots (Spec.rounds retryCount page n) = Spec.answer page <$> seq 0 n.
Proof.
  induction n as [|n IH]; [done |].
  rewrite rounds_snoc, seq_S, fmap_app. unfold snapshots in *.
  by rewrite omap_app, IH.
Qed.

Lemma neverCommitted_advance (page : Page) (a : nat) (es : list Event) :
  Spec.neverCommitted page → Spec.neverCommitted (Spec.advance page a es).
Proof. intros H k. rewrite answer_advance. apply H. Qed.

(** *** A jar that never commits: the loop runs the budget out *)

Lemma doWhile_never (n : nat) :
  ∀ (maxRetries retryCount : Z) (page : Page),
    Spec.neverCommitted page →
    (Z.of_nat (S n) = maxRetries - retryCount)%Z →
    doWhile maxRetries retryCount page
    = (Normal (Spec.answer page n),
       Spec.advance page (S n) (Spec.rounds retryCount page (S n))).
Proof.
  induction n as [|n IH]; intros maxRetries retryCount page Hnever Hn.
  - rewrite (doWhile_fallthrough _ _ _ _ _ _
               (iteration_retry maxRetries retryCount page (Hnever 0)
                  ltac:(lia))).
    rewrite (proj2 (Z.ltb_ge _ _)) by lia.
    done.
  - rewrite (doWhile_fallthrough _ _ _ _ _ _
               (iteration_retry maxRetries retryCount page (Hnever 0)
                  ltac:(lia))).
    rewrite (proj2 (Z.ltb_lt _ _)) by lia.
    rewrite IH by (try apply neverCommitted_advance; try done; lia).
    rewrite answer_advance, advance_advance.
    by rewrite <- (rounds_S _ _ _ (Spec.round retryCount page 0)).
Qed.

(** C3.  A jar that never shows the consent cookie committed, and
    [maxRetries = 2]: the call reads the jar exactly twice and returns the
    second snapshot. *)
Theorem waitForConsentCookie_exhausts_after_two (page : Page) :
  Spec.neverCommitted page →
  ∃ page',
    waitForConsentCookie 2 page = (Normal (Spec.answer page 1), page')
    ∧ fetched page' = fetched page + 2
    ∧ snapshots (events page')
      = (snapshots (events page)
         ++ [Spec.answer page 0; Spec.answer page 1])%list.
Proof.
  intros Hnever. eexists. split.
  - unfold waitForConsentCookie. by apply (doWhile_never 1).
  - split; [done |]. simpl. unfold snapshots.
    by rewrite omap_app.
Qed.

(** C4.  The jar shows no committed consent cookie at the first two reads
    and a committed one at the third, and [maxRetries = 3]: the call returns
    the third snapshot right after reading it, with exactly two waits in
    between, one after each of the first two reads. *)
Theorem waitForConsentCookie_converges_on_third (page : Page) :
  ¬ Spec.committed (Spec.answer page 0) →
  ¬ Spec.committed (Spec.answer page 1) →
  Spec.committed (Spec.answer page 2) →
  ∃ page',
    waitForConsentCookie 3 page = (Normal (Spec.answer page 2), page')
    ∧ events page'
      = (events page
         ++ [ Cookies (Spec.answer page 0);
              ConsoleLog (LogRetry 1); WaitForTimeout 1000;
              Cookies (Spec.answer page 1);
              ConsoleLog (LogRetry 2); WaitForTimeout 1000;
              Cookies (Spec.answer page 2) ])%list
    ∧ waits (events page')
      = (waits (events page) ++ [1000%Z; 1000%Z])%list
    ∧ fetched page' = fetched page + 3.
Proof.
  intros H0 H1 H2.
  pose (page1 := Spec.advance page 1 (Spec.round 0 page 0)).
  pose (page2 := Spec.advance page1 1 (Spec.round 1 page1 0)).
  assert (¬ Spec.committed (Spec.answer page1 0)) as H1'
    by (unfold page1; by rewrite answer_advance).
  assert (Spec.committed (Spec.answer page2 0)) as H2'
    by (unfold page2, page1; by rewrite !answer_advance).
  eexists. split.
  - unfold waitForConsentCookie.
    rewrite (doWhile_fallthrough _ _ _ _ _ _
               (iteration_retry 3 0 page H0 ltac:(lia))).
    change (0 + 1 <? 3)%Z with true. cbv iota.
    change (doWhile 3 (0 + 1) _) with (doWhile 3 1 page1).
    rewrite (doWhile_fallthrough _ _ _ _ _ _
               (iteration_retry 3 1 page1 H1' ltac:(lia))).
    change (1 + 1 <? 3)%Z with true. cbv iota.
    change (doWhile 3 (1 + 1) _) with (doWhile 3 2 page2).
    rewrite (doWhile_break _ _ _ _ _
               (iteration_break 3 2 page2 (or_introl H2'))).
    unfold page2, page1.
    rewrite !answer_advance, !advance_advance. reflexivity.
  - simpl. unfold Spec.answer. rewrite !Nat.add_0_r.
    split_and!; [done | | lia].
    unfold waits. by rewrite omap_app.
Qed.

(** C5.  Whatever the jar answers, [maxRetries = 0] still reads it exactly
    once: the body runs before the budget is looked at. *)
Theorem waitForConsentCookie_zero_budget_reads_once (page : Page) :
  ∃ page',
    waitForConsentCookie 0 page = (Normal (Spec.answer page 0), page')
    ∧ fetched page' = fetched page + 1
    ∧ events page' = (events page ++ [Cookies (Spec.answer page 0)])%list.
Proof.
  exists (Spec.advance page 1 [Cookies (Spec.answer page 0)]).
  split; [|done].
  unfold waitForConsentCookie. apply doWhile_break, iteration_break.
  right. lia.
Qed.

(** C9.  A jar that never shows the consent cookie committed, and
    [maxRetries = m >= 1]: the call goes through [m] full rounds of read,
    retry line and 1000 ms wait, so it waits [m] times, the last time after
    the last read, and then returns the last snapshot. *)
Theorem waitForConsentCookie_waits_after_every_read (page : Page)
    (maxRetries : Z) :
  (1 ≤ maxRetries)%Z →
  Spec.neverCommitted page →
  ∃ page',
    waitForConsentCookie maxRetries page
    = (Normal (Spec.answer page (Z.to_nat maxRetries - 1)), page')
    ∧ events page'
      = (events page ++ Spec.rounds 0 page (Z.to_nat maxRetries))%list
    ∧ waits (events page')
      = (waits (events page) ++ replicate (Z.to_nat maxRetries) 1000%Z)%list
    ∧ snapshots (events page')
      = (snapshots (events page)
         ++ (Spec.answer page <$> seq 0 (Z.to_nat maxRetries)))%list
    ∧ last (events page') = Some (WaitForTimeout 1000).
Proof.
  intros Hm Hnever.
  destruct (Z.to_nat maxRetries) as [|n] eqn:Hn; [lia |].
  eexists. split.
  - unfold waitForConsentCookie. rewrite (doWhile_never n) by (done || lia).
    by rewrite Nat.sub_1_r.
  - cbn [events Spec.advance]. split_and!.
    + done.
    + unfold waits. rewrite omap_app. f_equal. apply waits_rounds.
    + unfold snapshots. rewrite omap_app. f_equal. apply snapshots_rounds.
    + rewrite rounds_snoc. by rewrite !last_app.
Qed.

End PollingFacts.

(** ** The expectation registry and the workflow's guard *)

Section RegistryFacts.

Import CookieConfig.

(** The table has exactly the six project names of the execution matrix. *)
Lemma registered_names :
  dom COOKIE_EXPECTATIONS
  = ({[ "chromium"; "webkit"; "firefox"; "Microsoft Edge";
        "Mobile Chrome"; "Mobile Safari" ]} : gset string).
Proof. by vm_compute. Qed.

(** A registered identifier gets its own record back. *)
Lemma getExpectedCookies_registered (projectName : string)
    (e : ExpectedCookies) :
  COOKIE_EXPECTATIONS !! projectName = Some e →
  getExpectedCookies projectName = Js.Own e.
Proof. intros H. unfold getExpectedCookies, Js.get. by rewrite H. Qed.

(** The lookup answers [null] exactly for the identifiers that are neither
    registered nor the name of an inherited property. *)
Lemma getExpectedCookies_null_iff (projectName : string) :
  getExpectedCookies projectName = Js.Null
  ↔ ¬ Spec.registered projectName ∧ projectName ∉ Js.OBJECT_PROTOTYPE.
Proof.
  unfold getExpectedCookies, Js.get, Spec.registered.
  destruct (COOKIE_EXPECTATIONS !! projectName) as [e|] eqn:He; simpl.
  - split; [done | intros [H _]; by destruct H].
  - case_bool_decide as Hin; simpl.
    + split; [done | by intros [_ ?]].
    + split; [intros _ | done]. split; [apply is_Some_None | done].
Qed.

(** On [null] the workflow logs the warning and returns: nothing else is
    recorded and nothing is thrown. *)
Lemma validateCookies_skips_on_null (projectName : string)
    (cookiesBefore cookiesAfter : list Cookie) (page : Page) :
  getExpectedCookies projectName = Js.Null →
  CookieCustomizationTest.validateCookies projectName
    cookiesBefore cookiesAfter page
  = (Normal (), record (ConsoleLog (LogNoRules projectName)) page).
Proof.
  intros H. unfold CookieCustomizationTest.validateCookies. by rewrite H.
Qed.

(** C7 at the identifier [constructor], which the table does not register:
    the read finds the property every object literal inherits, the lookup
    hands that back instead of [null], the workflow's guard lets it pass,
    and the logging then throws on the missing [requiredCookies]. *)
Theorem getExpectedCookies_inherited_name :
  ¬ Spec.registered "constructor"
  ∧ getExpectedCookies "constructor" = Js.Inherited "constructor"
  ∧ getExpectedCookies "constructor" ≠ Js.Null
  ∧ ∀ (cookiesBefore cookiesAfter : list Cookie) (page : Page),
      CookieCustomizationTest.validateCookies "constructor"
        cookiesBefore cookiesAfter page
      = (Throw TypeError,
         record (ConsoleLog (LogCookieCount (length cookiesBefore)
                                            (length cookiesAfter)))
           (record (ConsoleLog (LogValidating "constructor")) page)).
Proof.
  assert (getExpectedCookies "constructor" = Js.Inherited "constructor")
    as Hget by (by vm_compute).
  split_and!.
  - unfold Spec.registered. intros [e He]. by vm_compute in He.
  - exact Hget.
  - by rewrite Hget.
  - intros cookiesBefore cookiesAfter page.
    unfold CookieCustomizationTest.validateCookies. by rewrite Hget.
Qed.

End RegistryFacts.

(** ** The statements at sample inputs *)

Section Samples.

Import CookieValidator Polling Fixtures.

Lemma not_committed_eval (snapshot : list Cookie) :
  Js.some consentCommitted snapshot = false → ¬ Spec.committed snapshot.
Proof. intros H Hc. apply committed_iff in Hc. congruence. Qed.

Lemma not_observed_eval (cookies : list Cookie) (key : string) :
  bool_decide (key ∈ cookieKey <$> cookies) = false →
  ¬ Spec.observed cookies key.
Proof. rewrite observed_iff. apply bool_decide_eq_false. Qed.

Lemma pending_neverCommitted : Spec.neverCommitted pending.
Proof. intros k. by apply not_committed_eval. Qed.

(** The decoder on the value of the specification's end-to-end scenario,
    and on one without [consent] and [action] tokens. *)
Example decode_scenario :
  validateConsentCookieContent [clck; consentYes] = mkContent true true true
  ∧ validateConsentCookieContent
      [mkCookie "cookieyes-consent" ""
         "necessary:yes;analytics:no;advertisement:no"]
    = mkContent false false true
  ∧ validateConsentCookieContent [clck] = mkContent false false false.
Proof. by vm_compute. Qed.

(** The validator against the desktop expectations. *)
Example validate_scenario :
  validateCookies [consentYes; clck] CookieConfig.desktop
  = {| isValid := true; missingRequired := [];
       foundOptional := 0; totalOptional := 4 |}
  ∧ validateCookies [clck] (mkExpected ["b@x"; "_clck@.thethinkingtraveller.com"; "a@x"] None)
    = {| isValid := false; missingRequired := ["b@x"; "a@x"];
         foundOptional := 0; totalOptional := 0 |}.
Proof. by vm_compute. Qed.

(** The polling loop on the two sample jars. *)
Example poll_scenario :
  fst (waitForConsentCookie 2 pending) = Normal [clck; consentNo]
  ∧ events (snd (waitForConsentCookie 2 pending))
    = [ Cookies [clck; consentNo]; ConsoleLog (LogRetry 1);
        WaitForTimeout 1000;
        Cookies [clck; consentNo]; ConsoleLog (LogRetry 2);
        WaitForTimeout 1000 ]
  ∧ fst (waitForConsentCookie DEFAULT_MAX_RETRIES settling)
    = Normal [clck; consentYes]
  ∧ fetched (snd (waitForConsentCookie (-1) settling)) = 1.
Proof. by vm_compute. Qed.

Lemma validateCookies_isValid_iff_witness :
  "cookieyes-consent@.www.thethinkingtraveller.com"
    ∈ requiredCookies CookieConfig.desktop
  ∧ ¬ Spec.observed [clck] "cookieyes-consent@.www.thethinkingtraveller.com"
  ∧ "cookieyes-consent@.www.thethinkingtraveller.com"
    ∈ missingRequired (validateCookies [clck] CookieConfig.desktop).
Proof.
  assert ("cookieyes-consent@.www.thethinkingtraveller.com"
            ∈ requiredCookies CookieConfig.desktop) as Hr
    by apply list_elem_of_here.
  assert (¬ Spec.observed [clck]
              "cookieyes-consent@.www.thethinkingtraveller.com") as Hn
    by (apply not_observed_eval; reflexivity).
  split; [exact Hr | split; [exact Hn |]].
  exact (proj2 (validateCookies_isValid_iff [clck] CookieConfig.desktop)
           _ Hr Hn).
Defined.

Lemma validateCookies_order_independent_witness :
  [clck; consentYes] ≡ₚ [consentYes; clck]
  ∧ validateCookies [consentYes; clck] CookieConfig.desktop
    = validateCookies [clck; consentYes] CookieConfig.desktop.
Proof.
  assert ([clck; consentYes] ≡ₚ [consentYes; clck]) as Hp
    by apply perm_swap.
  split; [exact Hp |].
  exact (proj1 (validateCookies_order_independent [clck; consentYes]
                  CookieConfig.desktop) _ Hp).
Defined.

Lemma validateConsentCookieContent_three_flags_witness :
  Forall (λ x, name x ≠ "cookieyes-consent") [clck]
  ∧ name consentYes = "cookieyes-consent"
  ∧ (hasYesConsent (validateConsentCookieContent [clck; consentYes; consentNo])
     = true ↔ Spec.contains (value consentYes) "consent:yes").
Proof.
  assert (Forall (λ x, name x ≠ "cookieyes-consent") [clck]) as Hpre
    by (repeat constructor; discriminate).
  assert (name consentYes = "cookieyes-consent") as Hc by reflexivity.
  split; [exact Hpre | split; [exact Hc |]].
  exact (proj1 (validateConsentCookieContent_three_flags
                  [clck] [consentNo] consentYes Hpre Hc)).
Defined.

Lemma validateConsentCookieContent_first_only_witness :
  Forall (λ x, name x ≠ "cookieyes-consent") [clck]
  ∧ name consentYes = "cookieyes-consent"
  ∧ validateConsentCookieContent [clck; consentYes; consentNo]
    = validateConsentCookieContent [consentYes].
Proof.
  assert (Forall (λ x, name x ≠ "cookieyes-consent") [clck]) as Hpre
    by (repeat constructor; discriminate).
  assert (name consentYes = "cookieyes-consent") as Hc by reflexivity.
  split; [exact Hpre | split; [exact Hc |]].
  exact (proj1 (proj1 (validateConsentCookieContent_first_only
                         [clck; consentYes; consentNo])
                  [clck] consentYes [consentNo] eq_refl Hpre Hc)).
Defined.

Lemma waitForConsentCookie_exhausts_after_two_witness :
  Spec.neverCommitted pending
  ∧ ∃ page',
      waitForConsentCookie 2 pending = (Normal (Spec.answer pending 1), page')
      ∧ fetched page' = fetched pending + 2
      ∧ snapshots (events page')
        = (snapshots (events pending)
           ++ [Spec.answer pending 0; Spec.answer pending 1])%list.
Proof.
  split; [exact pending_neverCommitted |].
  exact (waitForConsentCookie_exhausts_after_two pending
           pending_neverCommitted).
Defined.

Lemma waitForConsentCookie_converges_on_third_witness :
  ¬ Spec.committed (Spec.answer settling 0)
  ∧ ¬ Spec.committed (Spec.answer settling 1)
  ∧ Spec.committed (Spec.answer settling 2)
  ∧ ∃ page',
      waitForConsentCookie 3 settling
      = (Normal (Spec.answer settling 2), page')
      ∧ events page'
        = (events settling
           ++ [ Cookies (Spec.answer settling 0);
                ConsoleLog (LogRetry 1); WaitForTimeout 1000;
                Cookies (Spec.answer settling 1);
                ConsoleLog (LogRetry 2); WaitForTimeout 1000;
                Cookies (Spec.answer settling 2) ])%list
      ∧ waits (events page')
        = (waits (events settling) ++ [1000%Z; 1000%Z])%list
      ∧ fetched page' = fetched settling + 3.
Proof.
  assert (¬ Spec.committed (Spec.answer settling 0)) as H0
    by (apply not_committed_eval; reflexivity).
  assert (¬ Spec.committed (Spec.answer settling 1)) as H1
    by (apply not_committed_eval; reflexivity).
  assert (Spec.committed (Spec.answer settling 2)) as H2
    by (apply committed_iff; reflexivity).
  split; [exact H0 | split; [exact H1 | split; [exact H2 |]]].
  exact (waitForConsentCookie_converges_on_third settling H0 H1 H2).
Defined.

Lemma waitForConsentCookie_waits_after_every_read_witness :
  (1 ≤ 3)%Z
  ∧ Spec.neverCommitted pending
  ∧ ∃ page',
      waitForConsentCookie 3 pending
      = (Normal (Spec.answer pending (Z.to_nat 3 - 1)), page')
      ∧ events page'
        = (events pending ++ Spec.rounds 0 pending (Z.to_nat 3))%list
      ∧ waits (events page')
        = (waits (events pending) ++ replicate (Z.to_nat 3) 1000%Z)%list
      ∧ snapshots (events page')
        = (snapshots (events pending)
           ++ (Spec.answer pending <$> seq 0 (Z.to_nat 3)))%list
      ∧ last (events page') = Some (WaitForTimeout 1000).
Proof.
  assert (1 ≤ 3)%Z as Hm by lia.
  split; [exact Hm | split; [exact pending_neverCommitted |]].
  exact (waitForConsentCookie_waits_after_every_read pending 3 Hm
           pending_neverCommitted).
Defined.

End Samples.

(** ** More on the polling engine: any jar, any budget *)

Section PollingBehaviour.

Import CookieValidator Polling.

#[export] Instance committed_dec (snapshot : list Cookie) :
  Decision (Spec.committed snapshot).
Proof.
  refine (cast_if (decide (Js.some consentCommitted snapshot = true)));
    by rewrite <- committed_iff.
Defined.

(** Among the first [b] answers either there is a first committed one, or
    none is committed. *)
Lemma first_commit_or_none (page : Page) (b : nat) :
  (∃ k, k < b ∧ Spec.committed (Spec.answer page k)
        ∧ ∀ j, j < k → ¬ Spec.committed (Spec.answer page j))
  ∨ (∀ j, j < b → ¬ Spec.committed (Spec.answer page j)).
Proof.
  induction b as [|b [(k & Hk & Hc & Hfirst) | Hnone]].
  - right. intros j Hj. lia.
  - left. exists k. split; [lia | done].
  - destruct (decide (Spec.committed (Spec.answer page b))) as [Hc | Hn].
    + left. exists b. split; [lia | done].
    + right. intros j Hj.
      destruct (decide (j = b)) as [-> | Hne]; [done | apply Hnone; lia].
Qed.

(** The loop stops at the first committed answer, if the budget reaches
    that far. *)
Lemma doWhile_commit (k : nat) :
  ∀ (maxRetries retryCount : Z) (page : Page),
    (∀ j, j < k → ¬ Spec.committed (Spec.answer page j)) →
    Spec.committed (Spec.answer page k) →
    k = 0 ∨ (retryCount + Z.of_nat k < maxRetries)%Z →
    doWhile maxRetries retryCount page
    = (Normal (Spec.answer page k),
       Spec.advance page (S k)
         (Spec.rounds retryCount page k ++ [Cookies (Spec.answer page k)])).
Proof.
  induction k as [|k IH]; intros maxRetries retryCount page Hfirst Hc Hk.
  - apply doWhile_break. rewrite iteration_break by (by left). done.
  - destruct Hk as [|Hk]; [done |].
    rewrite (doWhile_fallthrough _ _ _ _ _ _
               (iteration_retry maxRetries retryCount page
                  (Hfirst 0 ltac:(lia)) ltac:(lia))).
    rewrite (proj2 (Z.ltb_lt _ _)) by lia.
    rewrite IH.
    + rewrite answer_advance, advance_advance.
      rewrite (rounds_S _ _ _ (Spec.round retryCount page 0)).
      by rewrite <- app_assoc.
    + intros j Hj. rewrite answer_advance. apply Hfirst. lia.
    + by rewrite answer_advance.
    + right. lia.
Qed.

(** The loop runs the budget out when the answers it gets to see are all
    uncommitted. *)
Lemma doWhile_exhaust (n : nat) :
  ∀ (maxRetries retryCount : Z) (page : Page),
    (∀ j, (j ≤ n)%nat → ¬ Spec.committed (Spec.answer page j)) →
    (Z.of_nat (S n) = maxRetries - retryCount)%Z →
    doWhile maxRetries retryCount page
    = (Normal (Spec.answer page n),
       Spec.advance page (S n) (Spec.rounds retryCount page (S n))).
Proof.
  induction n as [|n IH]; intros maxRetries retryCount page Hnone Hn.
  - rewrite (doWhile_fallthrough _ _ _ _ _ _
               (iteration_retry maxRetries retryCount page
                  (Hnone 0 ltac:(lia)) ltac:(lia))).
    by rewrite (proj2 (Z.ltb_ge _ _)) by lia.
  - rewrite (doWhile_fallthrough _ _ _ _ _ _
               (iteration_retry maxRetries retryCount page
                  (Hnone 0 ltac:(lia)) ltac:(lia))).
    rewrite (proj2 (Z.ltb_lt _ _)) by lia.
    rewrite IH.
    + rewrite answer_advance, advance_advance.
      by rewrite <- (rounds_S _ _ _ (Spec.round retryCount page 0)).
    + intros j Hj. rewrite answer_advance. apply Hnone. lia.
    + lia.
Qed.

(** The three ways a call can end. *)
Inductive Ending (page : Page) (maxRetries : Z)
    : list Cookie → Page → Prop :=
| Committed (k : nat) :
    (∀ j, j < k → ¬ Spec.committed (Spec.answer page j)) →
    Spec.committed (Spec.answer page k) →
    k < Trace.budget maxRetries →
    Ending page maxRetries (Spec.answer page k)
      (Spec.advance page (S k)
         (Spec.rounds 0 page k ++ [Cookies (Spec.answer page k)]))
| Exhausted (n : nat) :
    (∀ j, (j ≤ n)%nat → ¬ Spec.committed (Spec.answer page j)) →
    Z.of_nat (S n) = maxRetries →
    Ending page maxRetries (Spec.answer page n)
      (Spec.advance page (S n) (Spec.rounds 0 page (S n)))
| NoBudget :
    ¬ Spec.committed (Spec.answer page 0) →
    (maxRetries ≤ 0)%Z →
    Ending page maxRetries (Spec.answer page 0)
      (Spec.advance page 1 [Cookies (Spec.answer page 0)]).

Lemma waitForConsentCookie_ending (page : Page) (maxRetries : Z) :
  ∃ snapshot page',
    waitForConsentCookie maxRetries page = (Normal snapshot, page')
    ∧ Ending page maxRetries snapshot page'.
Proof.
  unfold waitForConsentCookie.
  destruct (first_commit_or_none page (Trace.budget maxRetries))
    as [(k & Hk & Hc & Hfirst) | Hnone].
  - eexists _, _. split; [|by apply (Committed _ _ k)].
    apply doWhile_commit; try done. unfold Trace.budget in Hk. lia.
  - destruct (decide (maxRetries ≤ 0)%Z) as [Hm | Hm].
    + eexists _, _. split; [|apply NoBudget; try done].
      * apply doWhile_break, iteration_break. by right.
      * apply Hnone. unfold Trace.budget. lia.
    + destruct (Z.to_nat maxRetries) as [|n] eqn:Hn; [lia |].
      eexists _, _. split; [|apply (Exhausted _ _ n); try lia].
      * apply doWhile_exhaust; [|lia].
        intros j Hj. apply Hnone. unfold Trace.budget. lia.
      * intros j Hj. apply Hnone. unfold Trace.budget. lia.
Qed.

Lemma snapshots_app (es es' : list Event) :
  snapshots (es ++ es') = (snapshots es ++ snapshots es')%list.
Proof. apply omap_app. Qed.

Lemma waits_app (es es' : list Event) :
  waits (es ++ es') = (waits es ++ waits es')%list.
Proof. apply omap_app. Qed.

(** X1.  If the jar first shows the consent cookie committed at read [k]
    (counting from 0) and the budget reaches that read ([k = 0], or
    [k < maxRetries]), the call returns that snapshot right after reading
    it, having gone through [k] rounds of read, retry line and wait before:
    [k + 1] reads and [k] waits of 1000 ms. *)
Theorem waitForConsentCookie_stops_at_first_commit (page : Page)
    (maxRetries : Z) (k : nat) :
  (∀ j, j < k → ¬ Spec.committed (Spec.answer page j)) →
  Spec.committed (Spec.answer page k) →
  k = 0 ∨ (Z.of_nat k < maxRetries)%Z →
  ∃ page',
    waitForConsentCookie maxRetries page = (Normal (Spec.answer page k), page')
    ∧ events page'
      = (events page ++ Spec.rounds 0 page k
         ++ [Cookies (Spec.answer page k)])%list
    ∧ fetched page' = fetched page + S k
    ∧ waits (events page')
      = (waits (events page) ++ replicate k 1000%Z)%list.
Proof.
  intros Hfirst Hc Hk. eexists. split.
  - unfold waitForConsentCookie.
    apply doWhile_commit; try done; destruct Hk; (by left) || (right; lia).
  - cbn [events fetched Spec.advance]. split_and!; try done.
    rewrite !waits_app, waits_rounds. simpl. by rewrite app_nil_r.
Qed.

(** X2.  Whatever the jar answers and whatever the budget, the call returns
    normally with the snapshot it read last; it reads at least once and at
    most [max 1 maxRetries] times, reads the answers in order without
    skipping any, never waits more often than it reads, and every wait is
    1000 ms. *)
Theorem waitForConsentCookie_reads_within_budget (page : Page)
    (maxRetries : Z) :
  ∃ (n w : nat) (page' : Page),
    waitForConsentCookie maxRetries page = (Normal (Spec.answer page n), page')
    ∧ (S n ≤ Trace.budget maxRetries)%nat
    ∧ fetched page' = fetched page + S n
    ∧ cookieSource page' = cookieSource page
    ∧ snapshots (events page')
      = (snapshots (events page) ++ (Spec.answer page <$> seq 0 (S n)))%list
    ∧ last (snapshots (events page')) = Some (Spec.answer page n)
    ∧ (w ≤ S n)%nat
    ∧ waits (events page')
      = (waits (events page) ++ replicate w 1000%Z)%list.
Proof.
  destruct (waitForConsentCookie_ending page maxRetries)
    as (snapshot & page' & Hrun & Hend).
  destruct Hend as [k Hfirst Hc Hk | n Hnone Hn | Hn Hm].
  - exists k, k, (Spec.advance page (S k)
      (Spec.rounds 0 page k ++ [Cookies (Spec.answer page k)])).
    cbn [events fetched cookieSource Spec.advance].
    rewrite !snapshots_app, !waits_app, snapshots_rounds, waits_rounds.
    rewrite seq_S, fmap_app. simpl.
    split_and!;
      first [ done | lia | by rewrite !app_assoc, last_snoc
            | by rewrite app_nil_r ].
  - exists n, (S n), (Spec.advance page (S n) (Spec.rounds 0 page (S n))).
    cbn [events fetched cookieSource Spec.advance].
    rewrite !snapshots_app, !waits_app, snapshots_rounds, waits_rounds.
    split_and!;
      first [ done | unfold Trace.budget; lia
            | rewrite seq_S, fmap_app; simpl;
              by rewrite !app_assoc, last_snoc ].
  - exists 0, 0, (Spec.advance page 1 [Cookies (Spec.answer page 0)]).
    cbn [events fetched cookieSource Spec.advance].
    rewrite !snapshots_app, !waits_app. simpl.
    split_and!;
      first [ done | unfold Trace.budget; lia | by rewrite last_snoc ].
Qed.

(** X3.  The snapshot a call returns shows the consent cookie committed
    exactly when one of the answers within the budget (the first
    [max 1 maxRetries] reads) does: a commit within the budget is never
    missed, and none is made up. *)
Theorem waitForConsentCookie_commit_found_iff (page page' : Page)
    (maxRetries : Z) (snapshot : list Cookie) :
  waitForConsentCookie maxRetries page = (Normal snapshot, page') →
  Spec.committed snapshot
  ↔ ∃ k, k < Trace.budget maxRetries ∧ Spec.committed (Spec.answer page k).
Proof.
  intros Hrun.
  destruct (waitForConsentCookie_ending page maxRetries)
    as (snapshot0 & page0 & Hrun0 & Hend).
  assert (snapshot0 = snapshot) as -> by congruence. clear Hrun Hrun0.
  destruct Hend as [k Hfirst Hc Hk | n Hnone Hn | Hn Hm].
  - split; [intros _; by exists k | done].
  - split; [intros Hc; by destruct (Hnone n) |].
    intros (k & Hk & Hc). destruct (Hnone k); [|done].
    unfold Trace.budget in Hk. lia.
  - split; [done |]. intros (k & Hk & Hc).
    unfold Trace.budget in Hk. by replace k with 0 in Hc by lia.
Qed.

(** X4.  A budget of zero or less is no budget: the call reads the jar
    once, writes nothing to the console, does not wait, and returns what it
    read, exactly as with [maxRetries = 0]. *)
Theorem waitForConsentCookie_nonpositive_budget (page : Page)
    (maxRetries : Z) :
  (maxRetries ≤ 0)%Z →
  waitForConsentCookie maxRetries page
  = (Normal (Spec.answer page 0),
     Spec.advance page 1 [Cookies (Spec.answer page 0)])
  ∧ waitForConsentCookie maxRetries page = waitForConsentCookie 0 page.
Proof.
  intros Hm.
  assert (∀ m, (m ≤ 0)%Z →
    waitForConsentCookie m page
    = (Normal (Spec.answer page 0),
       Spec.advance page 1 [Cookies (Spec.answer page 0)])) as H.
  { intros m Hle. unfold waitForConsentCookie.
    apply doWhile_break, iteration_break. by right. }
  split; [by apply H |]. by rewrite !H by lia.
Qed.

(** X5.  Budget left over is not used: if a call returns a snapshot that
    shows the consent cookie committed, then with any larger budget the call
    returns the same snapshot and leaves the same page behind. *)
Theorem waitForConsentCookie_spare_budget_unused (page page' : Page)
    (maxRetries maxRetries' : Z) (snapshot : list Cookie) :
  waitForConsentCookie maxRetries page = (Normal snapshot, page') →
  Spec.committed snapshot →
  (maxRetries ≤ maxRetries')%Z →
  waitForConsentCookie maxRetries' page = (Normal snapshot, page').
Proof.
  intros Hrun Hc Hle.
  destruct (waitForConsentCookie_ending page maxRetries)
    as (snapshot0 & page0 & Hrun0 & Hend).
  assert (snapshot0 = snapshot ∧ page0 = page') as [-> ->]
    by (split; congruence).
  clear Hrun Hrun0.
  destruct Hend as [k Hfirst Hk Hb | n Hnone Hn | Hn Hm].
  - unfold waitForConsentCookie. apply doWhile_commit; try done.
    unfold Trace.budget in Hb. lia.
  - by destruct (Hnone n).
  - done.
Qed.

End PollingBehaviour.

(** ** More on the decoder *)

Section DecoderBehaviour.

Import CookieValidator.
Local Open Scope nat_scope.

Lemma find_Some_split {A} (p : A → bool) (arr : list A) (x : A) :
  Js.find p arr = Some x →
  p x = true
  ∧ ∃ pre post, arr = (pre ++ x :: post)%list ∧ Forall (λ y, p y = false) pre.
Proof.
  induction arr as [|y arr IH]; [done |]. simpl.
  destruct (p y) eqn:Hy.
  - intros [= ->]. split; [done |]. by exists [], arr.
  - intros H. destruct (IH H) as (Hx & pre & post & -> & Hpre).
    split; [done |]. exists (y :: pre), post. split; [done |].
    by constructor.
Qed.

Lemma find_is_None {A} (p : A → bool) (arr : list A) :
  Js.find p arr = None → Forall (λ y, p y = false) arr.
Proof.
  induction arr as [|y arr IH]; [constructor |]. simpl.
  destruct (p y) eqn:Hy; [done |]. intros H. constructor; [done | by apply IH].
Qed.

(** X6.  With no cookie named exactly [cookieyes-consent] in the list (the
    empty list included) the decoder answers all false: it does not tell a
    missing consent cookie from one without any [yes] token. *)
Theorem validateConsentCookieContent_without_consent_cookie
    (cookies : list Cookie) (domain' : string) :
  Forall (λ x, name x ≠ "cookieyes-consent") cookies →
  validateConsentCookieContent cookies = mkContent false false false
  ∧ validateConsentCookieContent cookies
    = validateConsentCookieContent [mkCookie "cookieyes-consent" domain' ""].
Proof.
  intros H.
  assert (validateConsentCookieContent cookies = mkContent false false false)
    as Hnone.
  { unfold validateConsentCookieContent. rewrite find_none; [done |].
    eapply Forall_impl; [exact H |]. intros x. apply isConsentCookie_false. }
  split; [exact Hnone | by rewrite Hnone].
Qed.

Lemma flag_implies_committed (cookies : list Cookie) :
  hasYesConsent (validateConsentCookieContent cookies) = true →
  Spec.committed cookies.
Proof.
  unfold validateConsentCookieContent.
  destruct (Js.find isConsentCookie cookies) as [c|] eqn:Hfind; [|done].
  simpl. intros Hyes.
  apply find_Some_split in Hfind as (Hc & pre & post & -> & _).
  exists c. split_and!.
  + set_solver.
  + by apply isConsentCookie_iff.
  + by apply includes_contains.
Qed.

Lemma committed_single_implies_flag (cookies : list Cookie) :
  length (Trace.consentCookies cookies) ≤ 1 →
  Spec.committed cookies →
  hasYesConsent (validateConsentCookieContent cookies) = true.
Proof.
  intros Hone (c & Hin & Hname & Hyes).
  assert (validateConsentCookieContent cookies
          = validateConsentCookieContent (Trace.consentCookies cookies))
    as ->.
  { unfold validateConsentCookieContent, Trace.consentCookies.
    rewrite <- (find_filter isConsentCookie cookies).
    by rewrite (list_filter_iff (λ y, isConsentCookie y = true)
                  (λ x, name x = "cookieyes-consent"))
      by (intros x; apply isConsentCookie_iff). }
  assert (c ∈ Trace.consentCookies cookies) as Hc
    by (by apply list_elem_of_filter).
  destruct (Trace.consentCookies cookies) as [|c0 [|c1 rest]];
    [by apply not_elem_of_nil in Hc | | simpl in Hone; lia].
  apply list_elem_of_singleton in Hc as ->.
  pose proof (decode_first [] [] c0 (Forall_nil_2 _) Hname) as Hdecode.
  simpl in Hdecode. rewrite Hdecode. simpl.
  by apply includes_contains.
Qed.

(** X7.  The decoder's [hasYesConsent] and the commit test of the polling
    loop and the workflow ([some] cookie named [cookieyes-consent] contains
    [consent:yes]) agree in one direction always: a true flag means the
    snapshot passes the commit test.  The other direction needs the snapshot
    to hold at most one cookie of that name: the flag looks at the first
    one only. *)
Theorem hasYesConsent_versus_commit_test (cookies : list Cookie) :
  (hasYesConsent (validateConsentCookieContent cookies) = true →
   Spec.committed cookies)
  ∧ (length (Trace.consentCookies cookies) ≤ 1 →
     Spec.committed cookies →
     hasYesConsent (validateConsentCookieContent cookies) = true).
Proof.
  split; [apply flag_implies_committed | apply committed_single_implies_flag].
Qed.

End DecoderBehaviour.

(** ** More on the cookie set validator *)

Section ValidatorBehaviour.

Import CookieValidator.
Local Open Scope nat_scope.

Lemma filter_sublist_mono {A} (P Q : A → Prop)
    `{∀ x, Decision (P x)} `{∀ x, Decision (Q x)} (l : list A) :
  (∀ x, P x → Q x) → filter P l `sublist_of` filter Q l.
Proof.
  intros HPQ. induction l as [|x l IH]; [done |].
  rewrite !filter_cons. destruct (decide (P x)) as [HP | HP].
  - rewrite decide_True by auto. by constructor.
  - destruct (decide (Q x)); [by constructor | done].
Qed.

Lemma foundOptional_filter (cookies : list Cookie) (e : ExpectedCookies) :
  foundOptional (validateCookies cookies e)
  = length (filter (λ o, o ∈ cookieKey <$> cookies)
              (default [] (optionalCookies e))).
Proof.
  unfold validateCookies; simpl.
  destruct (optionalCookies e) as [optional|]; [|done].
  by rewrite foldl_optionalStep.
Qed.

Lemma totalOptional_length (cookies : list Cookie) (e : ExpectedCookies) :
  totalOptional (validateCookies cookies e)
  = length (default [] (optionalCookies e)).
Proof.
  unfold validateCookies; simpl.
  destruct (optionalCookies e) as [[|o optional]|]; done.
Qed.

(** X8.  Whatever was observed, the result stays within the expectations:
    [missingRequired] is [requiredCookies] with some entries struck out,
    [foundOptional] never exceeds [totalOptional], and [isValid] is true
    exactly when [missingRequired] is empty. *)
Theorem validateCookies_result_within_expectations (observed : list Cookie)
    (expectations : ExpectedCookies) :
  missingRequired (validateCookies observed expectations)
    `sublist_of` requiredCookies expectations
  ∧ foundOptional (validateCookies observed expectations)
    ≤ totalOptional (validateCookies observed expectations)
  ∧ (isValid (validateCookies observed expectations) = true
     ↔ missingRequired (validateCookies observed expectations) = []).
Proof.
  split_and!.
  - rewrite missingRequired_filter. apply sublist_filter.
  - rewrite foundOptional_filter, totalOptional_length. apply length_filter.
  - apply isValid_missing_nil.
Qed.

(** X9.  Observing more can only help: if every key observed in one list
    is observed in another, the second list's [missingRequired] is the
    first's with some entries struck out, a valid result stays valid, and
    [foundOptional] does not drop. *)
Theorem validateCookies_monotone (observed observed' : list Cookie)
    (expectations : ExpectedCookies) :
  (∀ k, Spec.observed observed k → Spec.observed observed' k) →
  missingRequired (validateCookies observed' expectations)
    `sublist_of` missingRequired (validateCookies observed expectations)
  ∧ (isValid (validateCookies observed expectations) = true →
     isValid (validateCookies observed' expectations) = true)
  ∧ foundOptional (validateCookies observed expectations)
    ≤ foundOptional (validateCookies observed' expectations).
Proof.
  intros Hmore.
  assert (∀ k, k ∈ cookieKey <$> observed → k ∈ cookieKey <$> observed')
    as Hkeys by (intros k; rewrite <- !observed_iff; apply Hmore).
  assert (missingRequired (validateCookies observed' expectations)
            `sublist_of` missingRequired (validateCookies observed expectations))
    as Hsub.
  { rewrite !missingRequired_filter. apply filter_sublist_mono.
    intros r Hr Hin. by apply Hr, Hkeys. }
  split_and!.
  - exact Hsub.
  - rewrite !isValid_missing_nil. intros Hnil. rewrite Hnil in Hsub.
    by apply sublist_nil_r.
  - rewrite !foundOptional_filter. apply sublist_length.
    by apply filter_sublist_mono.
Qed.

(** X10.  With nothing observed every required entry is missing, in
    declared order, no optional entry is found, and the result is valid only
    if nothing is required. *)
Theorem validateCookies_nothing_observed (expectations : ExpectedCookies) :
  missingRequired (validateCookies [] expectations)
  = requiredCookies expectations
  ∧ foundOptional (validateCookies [] expectations) = 0
  ∧ (isValid (validateCookies [] expectations) = true
     ↔ requiredCookies expectations = []).
Proof.
  assert (missingRequired (validateCookies [] expectations)
          = requiredCookies expectations) as Hall.
  { rewrite missingRequired_filter. simpl.
    induction (requiredCookies expectations) as [|r l IH]; [done |].
    rewrite filter_cons, decide_True by apply not_elem_of_nil.
    by rewrite IH. }
  split_and!.
  - exact Hall.
  - rewrite foundOptional_filter. simpl.
    induction (default [] (optionalCookies expectations)) as [|o l IH];
      [done |].
    by rewrite filter_cons, decide_False by apply not_elem_of_nil.
  - by rewrite isValid_missing_nil, Hall.
Qed.

(** X11.  Required entries are judged one by one: for a required list made
    of two parts, [missingRequired] is what is missing of the first part
    followed by what is missing of the second.  So an entry listed twice is
    reported twice. *)
Theorem validateCookies_required_app (observed : list Cookie)
    (required1 required2 : list string) (optional : option (list string)) :
  missingRequired
    (validateCookies observed (mkExpected (required1 ++ required2) optional))
  = (missingRequired
       (validateCookies observed (mkExpected required1 optional))
     ++ missingRequired
          (validateCookies observed (mkExpected required2 optional)))%list.
Proof. rewrite !missingRequired_filter. simpl. apply filter_app. Qed.

(** *** Keys and the pairs they stand for *)

Lemma contains_at_cons (a : ascii) (s : string) :
  Spec.contains (String a s) "@" ↔ a = "@"%char ∨ Spec.contains s "@".
Proof.
  rewrite <- !includes_contains. cbn [Js.includes String.prefix].
  destruct (ascii_dec "@" a) as [<- | Hne].
  - destruct s; simpl; split; auto.
  - rewrite orb_false_l. split; [by right | intros [-> | ?]; done].
Qed.

Lemma noAt_cons (a : ascii) (s : string) :
  Trace.noAt (String a s) ↔ a ≠ "@"%char ∧ Trace.noAt s.
Proof. unfold Trace.noAt. rewrite contains_at_cons. tauto. Qed.

(** A key whose name part has no [@] splits in one way only. *)
Lemma key_unique (n1 d1 n2 d2 : string) :
  Trace.noAt n1 → Trace.noAt n2 →
  (n1 ++ "@" ++ d1 = n2 ++ "@" ++ d2)%string →
  n1 = n2 ∧ d1 = d2.
Proof.
  revert n2. induction n1 as [|a n1 IH]; intros [|b n2] H1 H2 Heq;
    simpl in Heq.
  - by injection Heq.
  - injection Heq as <- _. by apply noAt_cons in H2 as [? _].
  - injection Heq as -> _. by apply noAt_cons in H1 as [? _].
  - injection Heq as -> Heq.
    apply noAt_cons in H1 as [_ H1]. apply noAt_cons in H2 as [_ H2].
    destruct (IH n2 H1 H2 Heq) as [-> ->]. done.
Qed.

(** X12.  When no observed cookie has an [@] in its name, a required entry
    [n@d] with no [@] in [n] is reported missing exactly when no observed
    cookie has name [n] and domain [d]: matching the key is matching the
    name and the domain. *)
Theorem validateCookies_matches_name_and_domain (observed : list Cookie)
    (expectations : ExpectedCookies) (n d : string) :
  Trace.noAt n →
  Forall (λ c, Trace.noAt (name c)) observed →
  (n ++ "@" ++ d)%string
    ∈ missingRequired (validateCookies observed expectations)
  ↔ (n ++ "@" ++ d)%string ∈ requiredCookies expectations
    ∧ ¬ ∃ c, c ∈ observed ∧ name c = n ∧ domain c = d.
Proof.
  intros Hn Hobs. rewrite missingRequired_filter, list_elem_of_filter.
  rewrite <- observed_iff.
  assert (Spec.observed observed (n ++ "@" ++ d)
          ↔ ∃ c, c ∈ observed ∧ name c = n ∧ domain c = d) as ->; [|tauto].
  split.
  - intros (c & Hc & Hkey). exists c. split; [done |].
    rewrite Forall_forall in Hobs.
    by destruct (key_unique _ _ _ _ Hn (Hobs c Hc) Hkey).
  - intros (c & Hc & <- & <-). by exists c.
Qed.

End ValidatorBehaviour.

(** ** Logging and the workflow's assertions *)

Section WorkflowBehaviour.

Import CookieValidator Logging CookieCustomizationTest.
Local Open Scope nat_scope.

(** *** Running the console-only operations *)

Lemma logged_nil (page : Page) : Trace.logged page [] = page.
Proof. destruct page. unfold Trace.logged; simpl. by rewrite app_nil_r. Qed.

Lemma logged_logged (page : Page) (ls ls' : list LogLine) :
  Trace.logged (Trace.logged page ls) ls' = Trace.logged page (ls ++ ls').
Proof.
  unfold Trace.logged; simpl. by rewrite fmap_app, app_assoc.
Qed.

Lemma console_log_run (line : LogLine) (page : Page) :
  console_log line page = (Normal (), Trace.logged page [line]).
Proof. done. Qed.

Lemma bind_run {A B} (m : Test A) (k : A → Test B) (page : Page) :
  (m ≫= k) page
  = match m page with
    | (Normal a, page') => k a page'
    | (Throw f, page') => (Throw f, page')
    end.
Proof. done. Qed.

Lemma forOf_console_log {A} (xs : list A) (line : A → LogLine) (page : Page) :
  forOf xs (λ x, console_log (line x)) page
  = (Normal (), Trace.logged page (line <$> xs)).
Proof.
  revert page; induction xs as [|x xs IH]; intros page.
  - by rewrite logged_nil.
  - cbn [forOf]. rewrite bind_run, console_log_run, IH, logged_logged. done.
Qed.

Lemma logCookieValidation_run (projectName : string)
    (cookiesBefore cookiesAfter : list Cookie) (e : ExpectedCookies)
    (page : Page) :
  logCookieValidation projectName cookiesBefore cookiesAfter (Js.Own e) page
  = (Normal (),
     Trace.logged page
       (Trace.validationLines projectName cookiesBefore cookiesAfter e)).
Proof.
  unfold logCookieValidation, Trace.validationLines. cbv zeta.
  cbn [iterateRequired readOptional].
  do 2 (rewrite bind_run, console_log_run; cbv iota beta).
  rewrite bind_run.
  rewrite (forOf_console_log (requiredCookies e)
             (λ r, LogRequired r (Js.array_includes (cookieKey <$> cookiesAfter) r))).
  cbv iota beta.
  destruct (optionalCookies e) as [optional|].
  - rewrite bind_run.
    rewrite (forOf_console_log optional
               (λ o, LogOptional o (Js.array_includes (cookieKey <$> cookiesAfter) o))).
    cbv iota beta.
    rewrite console_log_run, !logged_logged, foldl_optionalStep. simpl.
    by rewrite <- ?app_assoc.
  - unfold mret, test_ret. rewrite !logged_logged. simpl.
    by rewrite ?app_nil_r.
Qed.

Lemma missingRows_required (keys required : list string) :
  Trace.missingRows ((λ r, LogRequired r (bool_decide (r ∈ keys))) <$> required)
  = filter (λ r, r ∉ keys) required.
Proof.
  induction required as [|r required IH]; [done |].
  rewrite fmap_cons, filter_cons. unfold Trace.missingRows in *.
  cbn [omap list_omap]. rewrite IH.
  destruct (decide (r ∈ keys)) as [Hin | Hout].
  - rewrite bool_decide_eq_true_2 by done. by rewrite decide_False by tauto.
  - rewrite bool_decide_eq_false_2 by done. by rewrite decide_True by done.
Qed.

Lemma missingRows_optional (keys optional : list string) :
  Trace.missingRows ((λ o, LogOptional o (bool_decide (o ∈ keys))) <$> optional)
  = [].
Proof. by induction optional. Qed.

(** X13.  For a table entry [logCookieValidation] never throws and touches
    neither jar nor clock; it writes, in this order, the heading, the cookie
    counts, one line per required entry saying whether its key is among the
    observed keys, and, if [optionalCookies] is there, one line per optional
    entry and the found/total line: [2 + |required|] lines, plus
    [|optional| + 1] with [optionalCookies]. *)
Theorem logCookieValidation_writes (projectName : string)
    (cookiesBefore cookiesAfter : list Cookie) (e : ExpectedCookies)
    (page : Page) :
  ∃ page',
    logCookieValidation projectName cookiesBefore cookiesAfter (Js.Own e) page
    = (Normal (), page')
    ∧ fetched page' = fetched page
    ∧ cookieSource page' = cookieSource page
    ∧ events page'
      = (events page
         ++ (ConsoleLog <$>
               Trace.validationLines projectName cookiesBefore cookiesAfter e))%list
    ∧ snapshots (events page') = snapshots (events page)
    ∧ waits (events page') = waits (events page)
    ∧ length (console (events page'))
      = length (console (events page)) + 2 + length (requiredCookies e)
        + match optionalCookies e with
          | Some optional => length optional + 1
          | None => 0
          end.
Proof.
  eexists. split; [apply logCookieValidation_run |].
  cbn [fetched cookieSource events Trace.logged].
  assert (∀ lines : list LogLine,
    snapshots (ConsoleLog <$> lines) = []
    ∧ waits (ConsoleLog <$> lines) = []
    ∧ console (ConsoleLog <$> lines) = lines) as Hlines.
  { intros lines. induction lines as [|l lines (IH1 & IH2 & IH3)]; [done |].
    unfold snapshots, waits, console in *. rewrite fmap_cons.
    cbn [omap list_omap]. by rewrite IH1, IH2, IH3. }
  rewrite snapshots_app, waits_app.
  unfold console at 1. rewrite omap_app.
  fold (console (events page)).
  fold (console (ConsoleLog <$>
          Trace.validationLines projectName cookiesBefore cookiesAfter e)).
  destruct (Hlines (Trace.validationLines projectName cookiesBefore
                      cookiesAfter e)) as (-> & -> & ->).
  rewrite !app_nil_r. split_and!; try done.
  unfold Trace.validationLines. cbv zeta.
  rewrite !length_app, length_fmap. simpl.
  destruct (optionalCookies e) as [optional|]; simpl.
  - rewrite length_app, length_fmap. simpl. lia.
  - lia.
Qed.

(** X14.  The log and the validator agree: the required entries that
    [logCookieValidation] reports as missing are, in the same order, the
    [missingRequired] of [validateCookies] on the same input, and when
    [optionalCookies] is there its last line carries the validator's
    [foundOptional] and [totalOptional]. *)
Theorem logCookieValidation_agrees_with_validateCookies (projectName : string)
    (cookiesBefore cookiesAfter : list Cookie) (e : ExpectedCookies)
    (page : Page) :
  ∃ lines,
    logCookieValidation projectName cookiesBefore cookiesAfter (Js.Own e) page
    = (Normal (), Trace.logged page lines)
    ∧ Trace.missingRows lines
      = missingRequired (CookieValidator.validateCookies cookiesAfter e)
    ∧ (is_Some (optionalCookies e) →
       last lines
       = Some (LogOptionalFound
                 (foundOptional (CookieValidator.validateCookies cookiesAfter e))
                 (totalOptional (CookieValidator.validateCookies cookiesAfter e)))).
Proof.
  exists (Trace.validationLines projectName cookiesBefore cookiesAfter e).
  split; [apply logCookieValidation_run |].
  rewrite missingRequired_filter, foundOptional_filter, totalOptional_length.
  unfold Trace.validationLines. cbv zeta. split.
  - unfold Trace.missingRows. rewrite !omap_app.
    fold (Trace.missingRows
            ((λ r, LogRequired r (bool_decide (r ∈ cookieKey <$> cookiesAfter)))
               <$> requiredCookies e)).
    rewrite missingRows_required. simpl.
    destruct (optionalCookies e) as [optional|]; [|by rewrite app_nil_r].
    rewrite omap_app.
    fold (Trace.missingRows
            ((λ o, LogOptional o (bool_decide (o ∈ cookieKey <$> cookiesAfter)))
               <$> optional)).
    rewrite missingRows_optional. simpl. by rewrite app_nil_r.
  - intros [optional Hopt]. rewrite Hopt. cbn [default].
    by rewrite !last_app.
Qed.

(** *** The two assertions *)

Lemma assertRequiredCookies_run (result : CookieValidationResult)
    (cookiesAfter : list Cookie) (page : Page) :
  assertRequiredCookies result cookiesAfter page
  = if isValid result then (Normal (), page)
    else
      let page' :=
        Trace.logged page
          [ LogMissingRequired (missingRequired result);
            LogAvailable (cookieKey <$> cookiesAfter) ] in
      match missingRequired result with
      | [] => (Normal (), page')
      | missingCookie :: _ =>
          (Throw (ExpectFailed (RequiredCookiePresent missingCookie)), page')
      end.
Proof.
  unfold assertRequiredCookies. destruct (isValid result); [done |].
  cbn [negb]. do 2 (rewrite bind_run, console_log_run; cbv iota beta).
  rewrite logged_logged. by destruct (missingRequired result).
Qed.

Lemma validateConsentCookie_run (cookiesAfter : list Cookie) (page : Page) :
  validateConsentCookie cookiesAfter page
  = let content := validateConsentCookieContent cookiesAfter in
    let lines :=
      [ LogConsentUpdated true;
        LogConsentValue (hasYesConsent content);
        LogActionValue (hasYesAction content);
        LogNecessaryValue (hasYesNecessary content) ] in
    if negb (Js.some consentCommitted cookiesAfter) then
      (Throw (ExpectFailed ConsentCookieUpdated),
       Trace.logged page [LogConsentUpdated false])
    else if negb (hasYesConsent content) then
      (Throw (ExpectFailed ContainsConsentYes), Trace.logged page lines)
    else if negb (hasYesAction content) then
      (Throw (ExpectFailed ContainsActionYes), Trace.logged page lines)
    else if negb (hasYesNecessary content) then
      (Throw (ExpectFailed ContainsNecessaryYes), Trace.logged page lines)
    else (Normal (), Trace.logged page lines).
Proof.
  unfold validateConsentCookie, logConsentCookieValidation. cbv zeta.
  destruct (Js.some consentCommitted cookiesAfter);
    destruct (validateConsentCookieContent cookiesAfter) as [[] [] []];
    unfold mbind, test_bind, mret, test_ret, console_log, expect_true, throw,
      record, Trace.logged;
    simpl; by rewrite <- ?app_assoc.
Qed.

Lemma assertRequiredCookies_after_validation
    (cookiesAfter : list Cookie) (e : ExpectedCookies) (page : Page) :
  let result := CookieValidator.validateCookies cookiesAfter e in
  match filter (λ r, ¬ Spec.observed cookiesAfter r) (requiredCookies e) with
  | [] => assertRequiredCookies result cookiesAfter page = (Normal (), page)
  | first :: rest =>
      assertRequiredCookies result cookiesAfter page
      = (Throw (ExpectFailed (RequiredCookiePresent first)),
         Trace.logged page
           [ LogMissingRequired (first :: rest);
             LogAvailable (cookieKey <$> cookiesAfter) ])
  end.
Proof.
  intros result. rewrite assertRequiredCookies_run.
  assert (missingRequired result
          = filter (λ r, ¬ Spec.observed cookiesAfter r) (requiredCookies e))
    as Hmissing.
  { unfold result. rewrite missingRequired_filter.
    apply list_filter_iff. intros r. by rewrite observed_iff. }
  destruct (isValid result) eqn:Hvalid.
  - apply isValid_missing_nil in Hvalid. rewrite <- Hmissing.
    fold result in Hvalid. by rewrite Hvalid.
  - cbv zeta. rewrite <- Hmissing.
    destruct (missingRequired result) as [|first rest] eqn:Hm; [|done].
    apply (isValid_missing_nil cookiesAfter e) in Hm.
    unfold result in Hvalid. congruence.
Qed.

(** X15.  After validation [assertRequiredCookies] returns silently when
    nothing required is missing; otherwise it writes the list of missing
    entries and the observed keys and fails on the first missing entry in
    declared order, the only one it gets to assert. *)
Theorem assertRequiredCookies_fails_on_first_missing
    (cookiesAfter : list Cookie) (e : ExpectedCookies) (page : Page) :
  let result := CookieValidator.validateCookies cookiesAfter e in
  match filter (λ r, ¬ Spec.observed cookiesAfter r) (requiredCookies e) with
  | [] => assertRequiredCookies result cookiesAfter page = (Normal (), page)
  | first :: rest =>
      assertRequiredCookies result cookiesAfter page
      = (Throw (ExpectFailed (RequiredCookiePresent first)),
         Trace.logged page
           [ LogMissingRequired (first :: rest);
             LogAvailable (cookieKey <$> cookiesAfter) ])
  end.
Proof.
  intros result. subst result.
  pose proof (assertRequiredCookies_after_validation
                cookiesAfter e page) as H.
  cbv zeta in H. exact H.
Qed.

Lemma validateConsentCookie_passes_iff (cookiesAfter : list Cookie)
    (page : Page) :
  (validateConsentCookie cookiesAfter page).1 = Normal ()
  ↔ validateConsentCookieContent cookiesAfter = mkContent true true true.
Proof.
  rewrite validateConsentCookie_run. cbv zeta.
  destruct (validateConsentCookieContent cookiesAfter)
    as [consent action necessary] eqn:Hcontent.
  cbn [hasYesConsent hasYesAction hasYesNecessary].
  destruct (Js.some consentCommitted cookiesAfter) eqn:Hsome; cbn [negb].
  - destruct consent, action, necessary; cbn [negb fst]; split; congruence.
  - cbn [fst]. split; [done |]. intros [= -> -> ->].
    assert (Spec.committed cookiesAfter) as Hc
      by (apply flag_implies_committed; by rewrite Hcontent).
    apply committed_iff in Hc. congruence.
Qed.

(** X16.  [validateConsentCookie] passes exactly when the decoder finds all
    three of [consent:yes], [action:yes] and [necessary:yes]; it then has
    written four lines, all saying yes.  The commit test it makes first adds
    nothing to that. *)
Theorem validateConsentCookie_passes_exactly_when_all_yes
    (cookiesAfter : list Cookie) (page : Page) :
  ((validateConsentCookie cookiesAfter page).1 = Normal ()
   ↔ validateConsentCookieContent cookiesAfter = mkContent true true true)
  ∧ ((validateConsentCookie cookiesAfter page).1 = Normal () →
     (validateConsentCookie cookiesAfter page).2
     = Trace.logged page
         [ LogConsentUpdated true; LogConsentValue true;
           LogActionValue true; LogNecessaryValue true ]).
Proof.
  split; [apply validateConsentCookie_passes_iff |].
  intros Hpass. pose proof Hpass as Hall.
  apply validateConsentCookie_passes_iff in Hall.
  revert Hpass. rewrite validateConsentCookie_run. cbv zeta. rewrite Hall.
  cbn [hasYesConsent hasYesAction hasYesNecessary negb].
  by destruct (Js.some consentCommitted cookiesAfter).
Qed.

(** X17.  [validateConsentCookie] can fail on "should contain consent:yes"
    only if the snapshot holds at least two cookies named
    [cookieyes-consent]: with one such cookie at most, a snapshot without
    [consent:yes] already fails the commit test before. *)
Theorem validateConsentCookie_consent_failure_needs_two
    (cookiesAfter : list Cookie) (page : Page) :
  (validateConsentCookie cookiesAfter page).1
  = Throw (ExpectFailed ContainsConsentYes) →
  2 ≤ length (Trace.consentCookies cookiesAfter).
Proof.
  rewrite validateConsentCookie_run. cbv zeta.
  destruct (Js.some consentCommitted cookiesAfter) eqn:Hsome;
    cbn [negb fst]; [|done].
  destruct (hasYesConsent (validateConsentCookieContent cookiesAfter))
    eqn:Hflag; cbn [negb fst].
  - by destruct (hasYesAction _), (hasYesNecessary _).
  - intros _.
    destruct (decide (length (Trace.consentCookies cookiesAfter) ≤ 1))
      as [Hone|]; [|lia].
    apply committed_iff in Hsome.
    pose proof (committed_single_implies_flag _ Hone Hsome). congruence.
Qed.

(** *** Operations that only write to the console *)

Definition onlyLogs {A} (m : Test A) : Prop :=
  ∀ page, ∃ lines, (m page).2 = Trace.logged page lines.

Lemma onlyLogs_ret {A} (a : A) : onlyLogs (mret a).
Proof. intros page. exists []. by rewrite logged_nil. Qed.

Lemma onlyLogs_throw {A} (f : Failure) : onlyLogs (throw f : Test A).
Proof. intros page. exists []. by rewrite logged_nil. Qed.

Lemma onlyLogs_console_log (line : LogLine) : onlyLogs (console_log line).
Proof. intros page. by exists [line]. Qed.

Lemma onlyLogs_expect_true (actual : bool) (what : Expectation) :
  onlyLogs (expect_true actual what).
Proof. destruct actual; [apply onlyLogs_ret | apply onlyLogs_throw]. Qed.

Lemma onlyLogs_bind {A B} (m : Test A) (k : A → Test B) :
  onlyLogs m → (∀ a, onlyLogs (k a)) → onlyLogs (m ≫= k).
Proof.
  intros Hm Hk page. rewrite bind_run.
  destruct (Hm page) as [lines Hlines].
  destruct (m page) as [[a | f] page']; simpl in Hlines; subst page'.
  - destruct (Hk a (Trace.logged page lines)) as [lines' Hlines'].
    exists (lines ++ lines')%list. by rewrite Hlines', logged_logged.
  - by exists lines.
Qed.

Lemma onlyLogs_forOf {A} (xs : list A) (body : A → Test unit) :
  (∀ x, onlyLogs (body x)) → onlyLogs (forOf xs body).
Proof.
  intros Hbody. induction xs as [|x xs IH]; cbn [forOf].
  - apply onlyLogs_ret.
  - by apply onlyLogs_bind.
Qed.

Ltac only_logs :=
  repeat first
    [ apply onlyLogs_console_log
    | apply onlyLogs_ret
    | apply onlyLogs_throw
    | apply onlyLogs_expect_true
    | apply onlyLogs_forOf; intros ?
    | apply onlyLogs_bind; [|intros ?]
    | match goal with
      | |- onlyLogs (if ?b then _ else _) => destruct b
      | |- onlyLogs (match ?x with _ => _ end) => destruct x
      end ].

Lemma onlyLogs_logCookieValidation (projectName : string)
    (cookiesBefore cookiesAfter : list Cookie)
    (expectations : Js.Value ExpectedCookies) :
  onlyLogs (logCookieValidation projectName cookiesBefore cookiesAfter
              expectations).
Proof.
  unfold logCookieValidation, iterateRequired. cbv zeta. only_logs.
Qed.

Lemma onlyLogs_assertRequiredCookies (result : CookieValidationResult)
    (cookiesAfter : list Cookie) :
  onlyLogs (assertRequiredCookies result cookiesAfter).
Proof. unfold assertRequiredCookies. only_logs. Qed.

Lemma onlyLogs_validateConsentCookie (cookiesAfter : list Cookie) :
  onlyLogs (validateConsentCookie cookiesAfter).
Proof.
  unfold validateConsentCookie, logConsentCookieValidation. cbv zeta.
  only_logs.
Qed.

Lemma onlyLogs_workflow (projectName : string)
    (cookiesBefore cookiesAfter : list Cookie) :
  onlyLogs (CookieCustomizationTest.validateCookies projectName
              cookiesBefore cookiesAfter).
Proof.
  unfold CookieCustomizationTest.validateCookies. cbv zeta.
  destruct (negb _); [only_logs |].
  apply onlyLogs_bind; [apply onlyLogs_logCookieValidation | intros _].
  destruct (CookieConfig.getExpectedCookies projectName); only_logs;
    first [ apply onlyLogs_assertRequiredCookies
          | apply onlyLogs_validateConsentCookie ].
Qed.

(** X18.  Whatever the project name, the workflow's [validateCookies] only
    writes to the console: it does not read the jar and does not wait, and
    what was recorded before stays as it was. *)
Theorem workflow_validateCookies_only_logs (projectName : string)
    (cookiesBefore cookiesAfter : list Cookie) (page : Page) :
  let page' :=
    (CookieCustomizationTest.validateCookies projectName
       cookiesBefore cookiesAfter page).2 in
  fetched page' = fetched page
  ∧ cookieSource page' = cookieSource page
  ∧ snapshots (events page') = snapshots (events page)
  ∧ waits (events page') = waits (events page)
  ∧ ∃ lines, events page' = (events page ++ (ConsoleLog <$> lines))%list.
Proof.
  intros page'.
  destruct (onlyLogs_workflow projectName cookiesBefore cookiesAfter page)
    as [lines Hlines].
  subst page'. rewrite Hlines. cbn [fetched cookieSource events Trace.logged].
  clear Hlines.
  assert (snapshots (ConsoleLog <$> lines) = []
          ∧ waits (ConsoleLog <$> lines) = []) as [Hs Hw].
  { induction lines as [|l lines [IH1 IH2]]; [done |].
    unfold snapshots, waits in *. rewrite fmap_cons.
    cbn [omap list_omap]. by rewrite IH1, IH2. }
  rewrite snapshots_app, waits_app, Hs, Hw, !app_nil_r.
  split_and!; try done. by exists lines.
Qed.

(** *** The workflow as a whole *)

Lemma isValid_all_observed (cookiesAfter : list Cookie) (e : ExpectedCookies) :
  isValid (CookieValidator.validateCookies cookiesAfter e) = true
  ↔ ∀ r, r ∈ requiredCookies e → Spec.observed cookiesAfter r.
Proof.
  rewrite isValid_missing_nil, missingRequired_filter.
  rewrite filter_nil_iff, Forall_forall.
  split; intros H r Hr.
  - apply observed_iff. specialize (H r Hr). simpl in H.
    by destruct (decide (r ∈ cookieKey <$> cookiesAfter)).
  - simpl. intros Hn. apply Hn, observed_iff, H, Hr.
Qed.

Lemma workflow_run_own (projectName : string) (e : ExpectedCookies)
    (cookiesBefore cookiesAfter : list Cookie) (page : Page) :
  CookieConfig.getExpectedCookies projectName = Js.Own e →
  CookieCustomizationTest.validateCookies projectName
    cookiesBefore cookiesAfter page
  = (assertRequiredCookies
       (CookieValidator.validateCookies cookiesAfter e) cookiesAfter;;
     validateConsentCookie cookiesAfter;;
     console_log LogAllValidated)
      (Trace.logged page
         (Trace.validationLines projectName cookiesBefore cookiesAfter e)).
Proof.
  intros Hget. unfold CookieCustomizationTest.validateCookies. cbv zeta.
  rewrite Hget. cbn [Js.truthy negb].
  by rewrite bind_run, logCookieValidation_run.
Qed.

(** The outcome past the logging, for a table entry. *)
Lemma workflow_outcome_own (projectName : string) (e : ExpectedCookies)
    (cookiesBefore cookiesAfter : list Cookie) (page : Page) :
  CookieConfig.getExpectedCookies projectName = Js.Own e →
  (CookieCustomizationTest.validateCookies projectName
     cookiesBefore cookiesAfter page).1
  = match filter (λ r, ¬ Spec.observed cookiesAfter r) (requiredCookies e) with
    | first :: _ => Throw (ExpectFailed (RequiredCookiePresent first))
    | [] =>
        if negb (Js.some consentCommitted cookiesAfter)
        then Throw (ExpectFailed ConsentCookieUpdated)
        else
          match validateConsentCookieContent cookiesAfter with
          | {| hasYesConsent := false |} =>
              Throw (ExpectFailed ContainsConsentYes)
          | {| hasYesAction := false |} =>
              Throw (ExpectFailed ContainsActionYes)
          | {| hasYesNecessary := false |} =>
              Throw (ExpectFailed ContainsNecessaryYes)
          | _ => Normal ()
          end
    end.
Proof.
  intros Hget. rewrite (workflow_run_own _ e) by done.
  set (page1 := Trace.logged page _).
  rewrite bind_run.
  pose proof (assertRequiredCookies_after_validation
                cookiesAfter e page1) as Hassert.
  destruct (filter _ (requiredCookies e)) as [|first rest].
  - rewrite Hassert. rewrite bind_run, validateConsentCookie_run. cbv zeta.
    destruct (Js.some consentCommitted cookiesAfter); [|done].
    by destruct (validateConsentCookieContent cookiesAfter) as [[] [] []].
  - by rewrite Hassert.
Qed.

(** X19.  For a registered project the workflow's [validateCookies] passes
    exactly when every required entry is the key of an observed cookie and
    the decoder finds [consent:yes], [action:yes] and [necessary:yes]; the
    optional entries play no part, and no [TypeError] can come up. *)
Theorem workflow_validateCookies_passes_iff (projectName : string)
    (e : ExpectedCookies) (cookiesBefore cookiesAfter : list Cookie)
    (page : Page) :
  CookieConfig.COOKIE_EXPECTATIONS !! projectName = Some e →
  ((CookieCustomizationTest.validateCookies projectName
      cookiesBefore cookiesAfter page).1 = Normal ()
   ↔ (∀ r, r ∈ requiredCookies e → Spec.observed cookiesAfter r)
     ∧ validateConsentCookieContent cookiesAfter = mkContent true true true)
  ∧ (CookieCustomizationTest.validateCookies projectName
       cookiesBefore cookiesAfter page).1 ≠ Throw TypeError.
Proof.
  intros Hreg. apply getExpectedCookies_registered in Hreg.
  rewrite (workflow_outcome_own _ e) by done.
  rewrite <- isValid_all_observed, isValid_missing_nil, missingRequired_filter.
  rewrite (list_filter_iff (λ r, r ∉ cookieKey <$> cookiesAfter)
             (λ r, ¬ Spec.observed cookiesAfter r))
    by (intros r; by rewrite observed_iff).
  destruct (filter _ (requiredCookies e)) as [|first rest].
  - destruct (Js.some consentCommitted cookiesAfter) eqn:Hsome; cbn [negb].
    + by destruct (validateConsentCookieContent cookiesAfter)
        as [[] [] []]; (split; [split; [|intros [_ ?]] |]).
    + split; [|done]. split; [done |]. intros [_ Hall].
      assert (Spec.committed cookiesAfter) as Hc
        by (apply flag_implies_committed; by rewrite Hall).
      apply committed_iff in Hc. congruence.
  - split; [|done]. split; [done | by intros [? _]].
Qed.

(** X20.  When the jar never shows the consent cookie committed, the
    snapshot the polling hands on cannot pass the workflow's
    [validateCookies] for a registered project: it fails on the first
    missing required cookie, or else on "consent cookie should be
    updated". *)
Theorem workflow_fails_after_exhausted_poll (projectName : string)
    (e : ExpectedCookies) (maxRetries : Z) (page page' page0 : Page)
    (cookiesBefore snapshot : list Cookie) :
  Spec.neverCommitted page →
  CookieConfig.COOKIE_EXPECTATIONS !! projectName = Some e →
  Polling.waitForConsentCookie maxRetries page = (Normal snapshot, page') →
  (CookieCustomizationTest.validateCookies projectName
     cookiesBefore snapshot page0).1
  = match filter (λ r, ¬ Spec.observed snapshot r) (requiredCookies e) with
    | first :: _ => Throw (ExpectFailed (RequiredCookiePresent first))
    | [] => Throw (ExpectFailed ConsentCookieUpdated)
    end.
Proof.
  intros Hnever Hreg Hrun. apply getExpectedCookies_registered in Hreg.
  rewrite (workflow_outcome_own _ e) by done.
  assert (¬ Spec.committed snapshot) as Hn.
  { destruct (waitForConsentCookie_ending page maxRetries)
      as (snapshot0 & page1 & Hrun0 & Hend).
    assert (snapshot0 = snapshot) as -> by congruence.
    destruct Hend; apply Hnever. }
  rewrite <- committed_iff in Hn. apply not_true_is_false in Hn.
  by rewrite Hn.
Qed.

End WorkflowBehaviour.

(** ** More on the registry *)

Section RegistryBehaviour.

Import CookieConfig.
Local Open Scope nat_scope.

Lemma table_entries :
  map_Forall (λ _ e,
      requiredCookies e = [consentAtWww; atBase "_clck"]
      ∧ is_Some (optionalCookies e))
    COOKIE_EXPECTATIONS.
Proof.
  unfold COOKIE_EXPECTATIONS.
  repeat (rewrite list_to_map_cons; apply map_Forall_insert_2;
          [split; [reflexivity | by eexists] |]).
  apply map_Forall_empty.
Qed.

(** X21.  What the lookup can answer: never [undefined]; a table entry
    only for a registered name, and every entry requires exactly the
    consent cookie at the [www] domain and [_clck] at the base domain and
    has an [optionalCookies] list; [null] exactly for the names that are
    neither registered nor inherited from [Object.prototype]. *)
Theorem getExpectedCookies_answers (projectName : string) :
  match getExpectedCookies projectName with
  | Js.Undefined => False
  | Js.Own e =>
      COOKIE_EXPECTATIONS !! projectName = Some e
      ∧ requiredCookies e
        = [ "cookieyes-consent@.www.thethinkingtraveller.com";
            "_clck@.thethinkingtraveller.com" ]
      ∧ is_Some (optionalCookies e)
  | Js.Null =>
      ¬ Spec.registered projectName ∧ projectName ∉ Js.OBJECT_PROTOTYPE
  | Js.Inherited property =>
      property = projectName
      ∧ ¬ Spec.registered projectName ∧ projectName ∈ Js.OBJECT_PROTOTYPE
  end.
Proof.
  unfold getExpectedCookies, Js.get, Spec.registered.
  destruct (COOKIE_EXPECTATIONS !! projectName) as [e|] eqn:He; simpl.
  - split; [done |]. exact (table_entries projectName e He).
  - case_bool_decide as Hin; simpl.
    + split_and!; [done | apply is_Some_None | done].
    + split; [apply is_Some_None | done].
Qed.

(** X22.  The workflow skips, that is it writes the one warning line and
    returns, exactly for the project names that are neither registered nor
    inherited from [Object.prototype]. *)
Theorem workflow_skips_exactly_when_unknown (projectName : string)
    (cookiesBefore cookiesAfter : list Cookie) (page : Page) :
  CookieCustomizationTest.validateCookies projectName
    cookiesBefore cookiesAfter page
  = (Normal (), Trace.logged page [LogNoRules projectName])
  ↔ ¬ Spec.registered projectName ∧ projectName ∉ Js.OBJECT_PROTOTYPE.
Proof.
  rewrite <- getExpectedCookies_null_iff. split.
  - intros Hrun.
    destruct (getExpectedCookies projectName) as [| |e|property] eqn:Hget;
      [| done | |].
    + unfold getExpectedCookies, Js.or_null in Hget.
      by destruct (Js.get _ _).
    + rewrite (workflow_run_own _ e) in Hrun by done.
      set (lines := Trace.validationLines _ _ _ _) in Hrun.
      destruct (onlyLogs_bind _ _
                  (onlyLogs_assertRequiredCookies
                     (CookieValidator.validateCookies cookiesAfter e)
                     cookiesAfter)
                  (λ _, onlyLogs_bind _ _
                     (onlyLogs_validateConsentCookie cookiesAfter)
                     (λ _, onlyLogs_console_log LogAllValidated))
                  (Trace.logged page lines)) as [more Hmore].
      rewrite Hrun in Hmore. cbn [snd] in Hmore.
      rewrite logged_logged in Hmore.
      apply (f_equal events) in Hmore. cbn [events Trace.logged] in Hmore.
      apply app_inv_head in Hmore. by subst lines.
    + revert Hrun. unfold CookieCustomizationTest.validateCookies.
      cbv zeta. rewrite Hget. cbn [Js.truthy negb].
      rewrite bind_run.
      destruct (onlyLogs_logCookieValidation projectName cookiesBefore
                  cookiesAfter (Js.Inherited property) page) as [ls Hls].
      unfold Logging.logCookieValidation, Logging.iterateRequired.
      by unfold mbind, test_bind, console_log, throw.
  - apply validateCookies_skips_on_null.
Qed.

End RegistryBehaviour.

(** ** The behaviour statements at sample inputs *)

Section BehaviourSamples.

Import CookieValidator Polling Fixtures.
Local Open Scope nat_scope.

Lemma noAt_eval (s : string) : Js.includes s "@" = false → Trace.noAt s.
Proof. apply includes_false. Qed.

Lemma settling_run :
  waitForConsentCookie 3 settling
  = (Normal [clck; consentYes], (waitForConsentCookie 3 settling).2).
Proof. by vm_compute. Qed.

Lemma pending_run :
  waitForConsentCookie 3 pending
  = (Normal [clck; consentNo], (waitForConsentCookie 3 pending).2).
Proof. by vm_compute. Qed.

Lemma waitForConsentCookie_stops_at_first_commit_witness :
  (∀ j, j < 2 → ¬ Spec.committed (Spec.answer settling j))
  ∧ Spec.committed (Spec.answer settling 2)
  ∧ (2 = 0 ∨ (Z.of_nat 2 < 3)%Z)
  ∧ ∃ page',
      waitForConsentCookie 3 settling
      = (Normal (Spec.answer settling 2), page')
      ∧ events page'
        = (events settling ++ Spec.rounds 0 settling 2
           ++ [Cookies (Spec.answer settling 2)])%list
      ∧ fetched page' = fetched settling + 3
      ∧ waits (events page')
        = (waits (events settling) ++ replicate 2 1000%Z)%list.
Proof.
  assert (∀ j, j < 2 → ¬ Spec.committed (Spec.answer settling j)) as Hfirst.
  { intros j Hj. apply not_committed_eval.
    destruct j as [|[|j]]; [reflexivity | reflexivity | lia]. }
  assert (Spec.committed (Spec.answer settling 2)) as Hc
    by (apply committed_iff; reflexivity).
  assert (2 = 0 ∨ (Z.of_nat 2 < 3)%Z) as Hk by (right; lia).
  split; [exact Hfirst | split; [exact Hc | split; [exact Hk |]]].
  exact (waitForConsentCookie_stops_at_first_commit settling 3 2
           Hfirst Hc Hk).
Defined.

Lemma waitForConsentCookie_commit_found_iff_witness :
  waitForConsentCookie 3 settling
  = (Normal [clck; consentYes], (waitForConsentCookie 3 settling).2)
  ∧ (Spec.committed [clck; consentYes]
     ↔ ∃ k, k < Trace.budget 3 ∧ Spec.committed (Spec.answer settling k)).
Proof.
  split; [exact settling_run |].
  exact (waitForConsentCookie_commit_found_iff settling _ 3 _ settling_run).
Defined.

Lemma waitForConsentCookie_nonpositive_budget_witness :
  (-2 ≤ 0)%Z
  ∧ waitForConsentCookie (-2) pending
    = (Normal (Spec.answer pending 0),
       Spec.advance pending 1 [Cookies (Spec.answer pending 0)])
  ∧ waitForConsentCookie (-2) pending = waitForConsentCookie 0 pending.
Proof.
  assert (-2 ≤ 0)%Z as Hm by lia.
  split; [exact Hm |].
  exact (waitForConsentCookie_nonpositive_budget pending (-2) Hm).
Defined.

Lemma waitForConsentCookie_spare_budget_unused_witness :
  waitForConsentCookie 3 settling
  = (Normal [clck; consentYes], (waitForConsentCookie 3 settling).2)
  ∧ Spec.committed [clck; consentYes]
  ∧ (3 ≤ 5)%Z
  ∧ waitForConsentCookie 5 settling
    = (Normal [clck; consentYes], (waitForConsentCookie 3 settling).2).
Proof.
  assert (Spec.committed [clck; consentYes]) as Hc
    by (apply committed_iff; reflexivity).
  assert (3 ≤ 5)%Z as Hle by lia.
  split; [exact settling_run | split; [exact Hc | split; [exact Hle |]]].
  exact (waitForConsentCookie_spare_budget_unused settling _ 3 5 _
           settling_run Hc Hle).
Defined.

Lemma validateConsentCookieContent_without_consent_cookie_witness :
  Forall (λ x, name x ≠ "cookieyes-consent") [clck]
  ∧ validateConsentCookieContent [clck] = mkContent false false false
  ∧ validateConsentCookieContent [clck]
    = validateConsentCookieContent [mkCookie "cookieyes-consent" "" ""].
Proof.
  assert (Forall (λ x, name x ≠ "cookieyes-consent") [clck]) as H
    by (repeat constructor; discriminate).
  split; [exact H |].
  exact (validateConsentCookieContent_without_consent_cookie [clck] "" H).
Defined.

Lemma validateCookies_monotone_witness :
  (∀ k, Spec.observed [clck] k → Spec.observed [clck; consentYes] k)
  ∧ missingRequired (validateCookies [clck; consentYes] CookieConfig.desktop)
      `sublist_of` missingRequired (validateCookies [clck] CookieConfig.desktop)
  ∧ (isValid (validateCookies [clck] CookieConfig.desktop) = true →
     isValid (validateCookies [clck; consentYes] CookieConfig.desktop) = true)
  ∧ foundOptional (validateCookies [clck] CookieConfig.desktop)
    ≤ foundOptional (validateCookies [clck; consentYes] CookieConfig.desktop).
Proof.
  assert (∀ k, Spec.observed [clck] k → Spec.observed [clck; consentYes] k)
    as Hmore.
  { intros k (c & Hc & Hk). exists c. split; [|done].
    apply list_elem_of_singleton in Hc as ->. apply list_elem_of_here. }
  split; [exact Hmore |].
  exact (validateCookies_monotone [clck] [clck; consentYes]
           CookieConfig.desktop Hmore).
Defined.

Lemma validateCookies_matches_name_and_domain_witness :
  Trace.noAt "_clck"
  ∧ Forall (λ c, Trace.noAt (name c)) [consentYes]
  ∧ (("_clck" ++ "@" ++ ".thethinkingtraveller.com")%string
       ∈ missingRequired (validateCookies [consentYes] CookieConfig.desktop)
     ↔ ("_clck" ++ "@" ++ ".thethinkingtraveller.com")%string
         ∈ requiredCookies CookieConfig.desktop
       ∧ ¬ ∃ c, c ∈ [consentYes] ∧ name c = "_clck"
                ∧ domain c = ".thethinkingtraveller.com").
Proof.
  assert (Trace.noAt "_clck") as Hn by (apply noAt_eval; reflexivity).
  assert (Forall (λ c, Trace.noAt (name c)) [consentYes]) as Hobs
    by (repeat constructor; apply noAt_eval; reflexivity).
  split; [exact Hn | split; [exact Hobs |]].
  exact (validateCookies_matches_name_and_domain [consentYes]
           CookieConfig.desktop "_clck" ".thethinkingtraveller.com" Hn Hobs).
Defined.

Lemma validateConsentCookie_consent_failure_needs_two_witness :
  (CookieCustomizationTest.validateConsentCookie
     [consentNo; consentYes] pending).1
  = Throw (ExpectFailed ContainsConsentYes)
  ∧ 2 ≤ length (Trace.consentCookies [consentNo; consentYes]).
Proof.
  assert ((CookieCustomizationTest.validateConsentCookie
             [consentNo; consentYes] pending).1
          = Throw (ExpectFailed ContainsConsentYes)) as H by reflexivity.
  split; [exact H |].
  exact (validateConsentCookie_consent_failure_needs_two
           [consentNo; consentYes] pending H).
Defined.

Lemma workflow_validateCookies_passes_iff_witness :
  CookieConfig.COOKIE_EXPECTATIONS !! "chromium" = Some CookieConfig.desktop
  ∧ ((CookieCustomizationTest.validateCookies "chromium"
        [] [clck; consentYes] pending).1 = Normal ()
     ↔ (∀ r, r ∈ requiredCookies CookieConfig.desktop →
             Spec.observed [clck; consentYes] r)
       ∧ validateConsentCookieContent [clck; consentYes]
         = mkContent true true true).
Proof.
  assert (CookieConfig.COOKIE_EXPECTATIONS !! "chromium"
          = Some CookieConfig.desktop) as Hreg by (by vm_compute).
  split; [exact Hreg |].
  exact (proj1 (workflow_validateCookies_passes_iff "chromium"
                  CookieConfig.desktop [] [clck; consentYes] pending Hreg)).
Defined.

Lemma workflow_fails_after_exhausted_poll_witness :
  Spec.neverCommitted pending
  ∧ CookieConfig.COOKIE_EXPECTATIONS !! "firefox" = Some CookieConfig.desktop
  ∧ waitForConsentCookie 3 pending
    = (Normal [clck; consentNo], (waitForConsentCookie 3 pending).2)
  ∧ (CookieCustomizationTest.validateCookies "firefox"
       [] [clck; consentNo] pending).1
    = match filter (λ r, ¬ Spec.observed [clck; consentNo] r)
              (requiredCookies CookieConfig.desktop) with
      | first :: _ => Throw (ExpectFailed (RequiredCookiePresent first))
      | [] => Throw (ExpectFailed ConsentCookieUpdated)
      end.
Proof.
  assert (CookieConfig.COOKIE_EXPECTATIONS !! "firefox"
          = Some CookieConfig.desktop) as Hreg by (by vm_compute).
  split; [exact pending_neverCommitted |].
  split; [exact Hreg | split; [exact pending_run |]].
  exact (workflow_fails_after_exhausted_poll "firefox" CookieConfig.desktop
           3 pending _ pending [] [clck; consentNo]
           pending_neverCommitted Hreg pending_run).
Defined.

End BehaviourSamples.

(** ** analyze-cookies.js: which cookies count as consistent *)

Section AnalyzeCookiesFacts.

Import AnalyzeCookies.
Local Open Scope nat_scope.

(** The count a table holds for a key, 0 when it holds none. *)
Definition tally (counts : list (string * nat)) (k : string) : nat :=
  default 0 (read counts k).

Lemma read_write (counts : list (string * nat)) (k k' : string) (v : nat) :
  read (write counts k v) k'
  = if decide (k = k') then Some v else read counts k'.
Proof.
  induction counts as [|[k0 n] counts IH]; simpl.
  - destruct (String.eqb_spec k k'); by case_decide.
  - destruct (String.eqb_spec k0 k) as [-> | Hne]; simpl.
    + destruct (String.eqb_spec k k'); by case_decide.
    + destruct (String.eqb_spec k0 k') as [-> | Hne'].
      * by rewrite decide_False by done.
      * apply IH.
Qed.

Lemma keys_write (counts : list (string * nat)) (k : string) (v : nat) :
  (write counts k v).*1
  = if decide (k ∈ counts.*1) then counts.*1 else (counts.*1 ++ [k])%list.
Proof.
  induction counts as [|[k0 n] counts IH].
  - by rewrite decide_False by apply not_elem_of_nil.
  - cbn [write]. rewrite fmap_cons. cbn [fst].
    destruct (String.eqb_spec k0 k) as [-> | Hne].
    + by rewrite decide_True by apply list_elem_of_here.
    + rewrite fmap_cons, IH. cbn [fst].
      destruct (decide (k ∈ counts.*1)) as [Hin | Hout].
      * by rewrite decide_True by (by apply list_elem_of_further).
      * rewrite decide_False; [done |].
        intros [?|?]%elem_of_cons; congruence.
Qed.

Lemma values_write (counts : list (string * nat)) (k : string) (v : nat) :
  Forall (λ e, 1 ≤ e.2) counts → 1 ≤ v →
  Forall (λ e, 1 ≤ e.2) (write counts k v).
Proof.
  intros Hpos Hv. induction Hpos as [|[k0 n] counts Hn Hrest IH]; simpl.
  - by repeat constructor.
  - destruct (String.eqb k0 k); by constructor.
Qed.

Lemma tally_bump (counts : list (string * nat)) (k k' : string) :
  tally (bump counts k) k'
  = if decide (k = k') then S (tally counts k') else tally counts k'.
Proof.
  unfold tally, bump. cbv zeta. rewrite read_write.
  case_decide as Hk; [subst k' | done]. simpl.
  destruct (read counts k) as [[|n]|]; simpl; lia.
Qed.

(** What the table looks like after any number of bumps. *)
Record wellFormed (counts : list (string * nat)) : Prop := {
  keys_distinct : NoDup counts.*1;
  counts_positive : Forall (λ e, 1 ≤ e.2) counts
}.

Lemma wellFormed_bump (counts : list (string * nat)) (k : string) :
  wellFormed counts → wellFormed (bump counts k).
Proof.
  intros [Hkeys Hpos]. unfold bump. cbv zeta. split.
  - rewrite keys_write. case_decide; [done |].
    apply NoDup_app. split_and!; [done | | apply NoDup_singleton].
    intros x Hx ->%list_elem_of_singleton. done.
  - apply values_write; [done | lia].
Qed.

Lemma read_elem_of (counts : list (string * nat)) (k : string) (n : nat) :
  NoDup counts.*1 → (k, n) ∈ counts ↔ read counts k = Some n.
Proof.
  induction counts as [|[k0 n0] counts IH]; simpl; intros Hkeys.
  - split; [by intros ?%not_elem_of_nil | done].
  - apply NoDup_cons in Hkeys as [Hk0 Hkeys].
    rewrite elem_of_cons, (IH Hkeys).
    destruct (String.eqb_spec k0 k) as [-> | Hne].
    + split.
      * intros [[= ->] | Hread]; [done |].
        destruct Hk0. apply list_elem_of_fmap. exists (k, n).
        split; [done |]. by apply IH.
      * intros [= ->]. by left.
    + split; [intros [[= ? ?] | ?]; congruence | by right].
Qed.

Lemma countCookies_acc (runs : list Run) (counts : list (string * nat))
    (k : string) :
  wellFormed counts →
  let counts' :=
    foldl (λ counts run,
             foldl (λ counts cookie, bump counts (key cookie))
               counts (cookiesAfter run))
      counts runs in
  wellFormed counts'
  ∧ tally counts' k = tally counts k + occurrences k runs.
Proof.
  revert counts. induction runs as [|run runs IH]; intros counts Hwf; simpl.
  - split; [done | unfold occurrences; simpl; lia].
  - assert (∀ refs acc, wellFormed acc →
      wellFormed (foldl (λ counts cookie, bump counts (key cookie)) acc refs)
      ∧ tally (foldl (λ counts cookie, bump counts (key cookie)) acc refs) k
        = tally acc k + length (filter (λ cookie, key cookie = k) refs))
      as Hinner.
    { induction refs as [|c refs IHc]; intros acc Hacc; simpl.
      - split; [done | lia].
      - destruct (IHc (bump acc (key c)) (wellFormed_bump _ _ Hacc))
          as [Hwf' ->].
        split; [done |]. rewrite tally_bump, filter_cons.
        case_decide; simpl; lia. }
    destruct (Hinner (cookiesAfter run) counts Hwf) as [Hwf1 Htally1].
    destruct (IH _ Hwf1) as [Hwf2 Htally2].
    split; [done |]. rewrite Htally2, Htally1.
    unfold occurrences.
    change (mjoin (cookiesAfter <$> run :: runs))
      with (cookiesAfter run ++ mjoin (cookiesAfter <$> runs))%list.
    rewrite filter_app, length_app. lia.
Qed.

Lemma countCookies_tally (runs : list Run) (k : string) :
  wellFormed (countCookies runs)
  ∧ tally (countCookies runs) k = occurrences k runs.
Proof.
  destruct (countCookies_acc runs [] k) as [Hwf Htally].
  - split; simpl; constructor.
  - split; [done |]. exact Htally.
Qed.

(** X23.  A key is reported as consistent exactly when there is at least
    one run and the number of times the key is listed, over all runs
    together, equals the number of runs. *)
Theorem consistentCookiesAfter_iff_count (runs : list Run) (k : string) :
  k ∈ consistentCookiesAfter runs
  ↔ runs ≠ [] ∧ occurrences k runs = length runs.
Proof.
  destruct (countCookies_tally runs k) as [[Hkeys Hpos] Htally].
  unfold consistentCookiesAfter. rewrite list_elem_of_fmap. split.
  - intros ([k' n] & -> & [Hn Hin]%list_elem_of_filter). simpl in *.
    rewrite Forall_forall in Hpos. pose proof (Hpos _ Hin) as Hge.
    apply read_elem_of in Hin; [|done].
    unfold tally in Htally. rewrite Hin in Htally. simpl in *.
    split; [|lia]. intros ->. simpl in *. lia.
  - intros [Hne Hocc]. exists (k, length runs). split; [done |].
    apply list_elem_of_filter. split; [done |].
    apply read_elem_of; [done |].
    unfold tally in Htally. rewrite Hocc in Htally.
    destruct (read (countCookies runs) k) as [n|]; simpl in Htally.
    + by subst n.
    + destruct runs; [done | simpl in Htally; lia].
Qed.

Lemma occurrences_le (runs : list Run) (k : string) :
  Forall (λ run, NoDup (key <$> cookiesAfter run)) runs →
  occurrences k runs ≤ length runs
  ∧ (occurrences k runs = length runs
     ↔ Forall (λ run, k ∈ key <$> cookiesAfter run) runs).
Proof.
  assert (∀ refs, NoDup (key <$> refs) →
    length (filter (λ cookie, key cookie = k) refs)
    = if decide (k ∈ key <$> refs) then 1 else 0) as Hone.
  { induction refs as [|c refs IHc]; [done |].
    rewrite fmap_cons, NoDup_cons. intros [Hc Hnd].
    rewrite filter_cons.
    destruct (decide (key c = k)) as [<- | Hne]; cbn [length];
      rewrite (IHc Hnd).
    - rewrite decide_False by done.
      by rewrite decide_True by apply list_elem_of_here.
    - destruct (decide (k ∈ key <$> refs)) as [Hin | Hout].
      + by rewrite decide_True by (by apply list_elem_of_further).
      + rewrite decide_False; [done |].
        intros [?|?]%elem_of_cons; congruence. }
  induction 1 as [|run runs Hrun _ [IHle IHiff]].
  - split; [done |]. split; [constructor | done].
  - unfold occurrences in *.
    change (mjoin (cookiesAfter <$> run :: runs))
      with (cookiesAfter run ++ mjoin (cookiesAfter <$> runs))%list.
    rewrite filter_app, length_app. cbn [length].
    rewrite (Hone _ Hrun), Forall_cons.
    case_decide as Hin; split; try lia.
    + rewrite <- IHiff. split; [intros ?; split; [done | lia] | lia].
    + split; [lia | tauto].
Qed.

(** X24.  When no run lists the same key twice, the keys reported as
    consistent are exactly the keys listed in every run (and none when
    there is no run). *)
Theorem consistentCookiesAfter_in_every_run (runs : list Run) (k : string) :
  Forall (λ run, NoDup (key <$> cookiesAfter run)) runs →
  k ∈ consistentCookiesAfter runs
  ↔ runs ≠ [] ∧ ∀ run, run ∈ runs → k ∈ key <$> cookiesAfter run.
Proof.
  intros Hnodup.
  destruct (countCookies_tally runs k) as [[Hkeys Hpos] Htally].
  destruct (occurrences_le runs k Hnodup) as [_ Hiff].
  rewrite <- Forall_forall, <- Hiff.
  unfold consistentCookiesAfter. rewrite list_elem_of_fmap. split.
  - intros ([k' n] & -> & [Hn Hin]%list_elem_of_filter). simpl in *.
    rewrite Forall_forall in Hpos. pose proof (Hpos _ Hin) as Hge.
    apply read_elem_of in Hin; [|done].
    unfold tally in Htally. rewrite Hin in Htally. simpl in *.
    split; [|lia]. intros ->. simpl in *. lia.
  - intros [Hne Hocc]. exists (k, length runs). split; [done |].
    apply list_elem_of_filter. split; [done |].
    apply read_elem_of; [done |].
    unfold tally in Htally. rewrite Hocc in Htally.
    destruct (read (countCookies runs) k) as [n|]; simpl in Htally.
    + by subst n.
    + destruct runs; [done | simpl in Htally; lia].
Qed.

(** X25.  No key is reported twice, and a run that lists a key more than
    once can stand in for a run that does not list it: with two runs, a key
    listed twice in the first and not at all in the second is reported. *)
Theorem consistentCookiesAfter_distinct_but_miscounts (runs : list Run) :
  NoDup (consistentCookiesAfter runs)
  ∧ ∀ cookie : CookieRef,
      consistentCookiesAfter [mkRun [cookie; cookie]; mkRun []]
      = [key cookie].
Proof.
  split.
  - destruct (countCookies_tally runs "") as [[Hkeys _] _].
    unfold consistentCookiesAfter.
    eapply sublist_NoDup; [exact Hkeys | apply fmap_sublist, sublist_filter].
  - intros cookie. unfold consistentCookiesAfter, countCookies. simpl.
    change (bump [] (key cookie)) with [(key cookie, 1)].
    unfold bump. cbn [read write]. by rewrite String.eqb_refl.
Qed.

End AnalyzeCookiesFacts.

Section AnalyzeCookiesSamples.

Import AnalyzeCookies.

Definition sampleRuns : list Run :=
  [ mkRun [ mkRef "_ga" ".thethinkingtraveller.com";
            mkRef "cookieyes-consent" ".www.thethinkingtraveller.com" ];
    mkRun [ mkRef "cookieyes-consent" ".www.thethinkingtraveller.com";
            mkRef "_clck" ".thethinkingtraveller.com" ] ].

Example consistent_scenario :
  countCookies sampleRuns
  = [ ("_ga@.thethinkingtraveller.com", 1);
      ("cookieyes-consent@.www.thethinkingtraveller.com", 2);
      ("_clck@.thethinkingtraveller.com", 1) ]
  ∧ consistentCookiesAfter sampleRuns
    = ["cookieyes-consent@.www.thethinkingtraveller.com"].
Proof. by vm_compute. Qed.

Lemma consistentCookiesAfter_in_every_run_witness :
  Forall (λ run, NoDup (key <$> cookiesAfter run)) sampleRuns
  ∧ ("_ga@.thethinkingtraveller.com" ∈ consistentCookiesAfter sampleRuns
     ↔ sampleRuns ≠ []
       ∧ ∀ run, run ∈ sampleRuns →
           "_ga@.thethinkingtraveller.com" ∈ key <$> cookiesAfter run).
Proof.
  assert (Forall (λ run, NoDup (key <$> cookiesAfter run)) sampleRuns) as H.
  { repeat constructor; simpl; unfold key; simpl;
      intros Hin; repeat (apply elem_of_cons in Hin as [Hin | Hin];
                          [discriminate |]);
      by apply not_elem_of_nil in Hin. }
  split; [exact H |].
  exact (consistentCookiesAfter_in_every_run sampleRuns
           "_ga@.thethinkingtraveller.com" H).
Defined.

End AnalyzeCookiesSamples.
